(** * Uncle & Aunty Kitchen: content loader, section renderers, page chrome

    A shallow embedding of the two copies of the site script kept in the
    repository,

      - [src/js/app.js], the copy that reads every field as it is
        (variant [Strict] below), and
      - the second copy of the same script, which guards every read with
        [Array.isArray] and [|| ''] (variant [Defensive] below),

    followed by the properties of the loader ([loadData]), of the five
    section renderers, of the scroll handler of [initNavigation] and of the
    bootstrapper ([init]). *)

From Stdlib Require Import String Ascii List ZArith QArith Bool Lia.
From stdpp Require Import gmap strings list fin_maps pretty.
Import ListNotations.

Set Warnings "-register-all".

Local Open Scope string_scope.
Local Open Scope stdpp_scope.
Local Open Scope list_scope.

(* ===================================================================== *)
(** * 1. JavaScript values                                                *)
(* ===================================================================== *)

(** What [JSON.parse] builds.  A number is kept as an integer: the scripts
    only test a number for zero and print it, and an integer of fewer than
    22 digits prints in JavaScript as it does here; fractions and longer
    integers are left out of the model.  A string is a sequence of bytes,
    which is what the scripts see as long as the text is ASCII.  The
    properties of an object are listed in the order in which the engine
    enumerates them, and their keys are distinct. *)
Inductive json : Type :=
| JNull
| JBool (b : bool)
| JNum (n : Z)
| JStr (s : string)
| JArr (items : list json)
| JObj (props : list (string * json)).

(** What an expression of the scripts can evaluate to: a parsed value,
    [undefined], or a built-in found on a prototype (such as the function
    [String.prototype.link], which [item.link] yields when [item] is a
    string).  Of a built-in the scripts only ever take the truth value and
    the text. *)
Inductive value : Type :=
| Undefined
| Native (name : string)
| Json (j : json).

Coercion Json : json >-> value.

(** Exceptions.  The message of an engine-raised [TypeError] differs between
    engines; the model keeps a description of the cause. *)
Inductive js_error : Type :=
| Error (message : string)
| TypeError (message : string)
| SyntaxError (message : string).

Inductive result (A : Type) : Type :=
| Ok (a : A)
| Throw (e : js_error).

Arguments Ok {A} a.
Arguments Throw {A} e.

Global Instance result_ret : MRet result := fun A a => Ok a.

Global Instance result_bind : MBind result := fun A B k r =>
  match r with
  | Ok a => k a
  | Throw e => Throw e
  end.

(** ** Property names found on the built-in prototypes *)

Definition Object_prototype : list string :=
  [ "constructor"; "__defineGetter__"; "__defineSetter__"; "hasOwnProperty";
    "__lookupGetter__"; "__lookupSetter__"; "isPrototypeOf";
    "propertyIsEnumerable"; "toString"; "valueOf"; "__proto__";
    "toLocaleString" ].

Definition String_prototype : list string :=
  [ "anchor"; "at"; "big"; "blink"; "bold"; "charAt"; "charCodeAt";
    "codePointAt"; "concat"; "endsWith"; "fixed"; "fontcolor"; "fontsize";
    "includes"; "indexOf"; "isWellFormed"; "italics"; "lastIndexOf"; "link";
    "localeCompare"; "match"; "matchAll"; "normalize"; "padEnd"; "padStart";
    "repeat"; "replace"; "replaceAll"; "search"; "slice"; "small"; "split";
    "startsWith"; "strike"; "sub"; "substr"; "substring"; "sup";
    "toLocaleLowerCase"; "toLocaleUpperCase"; "toLowerCase"; "toUpperCase";
    "toWellFormed"; "trim"; "trimEnd"; "trimLeft"; "trimRight"; "trimStart" ].

Definition Array_prototype : list string :=
  [ "at"; "concat"; "copyWithin"; "entries"; "every"; "fill"; "filter";
    "find"; "findIndex"; "findLast"; "findLastIndex"; "flat"; "flatMap";
    "forEach"; "includes"; "indexOf"; "join"; "keys"; "lastIndexOf"; "map";
    "pop"; "push"; "reduce"; "reduceRight"; "reverse"; "shift"; "slice";
    "some"; "sort"; "splice"; "toReversed"; "toSorted"; "toSpliced";
    "unshift"; "values"; "with" ].

Definition Number_prototype : list string :=
  [ "toExponential"; "toFixed"; "toPrecision" ].

Definition Function_prototype : list string :=
  [ "apply"; "bind"; "call" ].

Definition mem (k : string) (names : list string) : bool :=
  existsb (String.eqb k) names.

(** A member inherited from one of the prototypes [protos], else
    [undefined]. *)
Definition inherited (protos : list string) (k : string) : value :=
  if mem k protos then Native k else Undefined.

Fixpoint assoc (k : string) (props : list (string * json)) : option json :=
  match props with
  | [] => None
  | (k', x) :: rest => if String.eqb k k' then Some x else assoc k rest
  end.

(** ** The operators the scripts use *)

(** ToBoolean: what [if (x)], [!x], [x || y] and [x ? a : b] test. *)
Definition truthy (v : value) : bool :=
  match v with
  | Undefined => false
  | Native _ => true
  | Json JNull => false
  | Json (JBool b) => b
  | Json (JNum n) => negb (n =? 0)%Z
  | Json (JStr s) => negb (String.eqb s "")
  | Json (JArr _) => true
  | Json (JObj _) => true
  end.

(** [a || b] *)
Definition or_else (a b : value) : value :=
  if truthy a then a else b.

(** [v.k], for an identifier [k]: an own property, else a member of the
    prototype chain, else [undefined]; reading from [undefined] or [null]
    throws. *)
Definition get (v : value) (k : string) : result value :=
  match v with
  | Undefined =>
      Throw (TypeError ("Cannot read properties of undefined (reading '" +:+ k +:+ "')"))
  | Json JNull =>
      Throw (TypeError ("Cannot read properties of null (reading '" +:+ k +:+ "')"))
  | Json (JObj props) =>
      match assoc k props with
      | Some x => Ok (Json x)
      | None => Ok (inherited Object_prototype k)
      end
  | Json (JArr items) =>
      if String.eqb k "length" then Ok (Json (JNum (Z.of_nat (length items))))
      else Ok (inherited (Array_prototype ++ Object_prototype) k)
  | Json (JStr s) =>
      if String.eqb k "length" then Ok (Json (JNum (Z.of_nat (String.length s))))
      else Ok (inherited (String_prototype ++ Object_prototype) k)
  | Json (JNum _) => Ok (inherited (Number_prototype ++ Object_prototype) k)
  | Json (JBool _) => Ok (inherited Object_prototype k)
  | Native f =>
      if String.eqb k "name" then Ok (Json (JStr f))
      else Ok (inherited (Function_prototype ++ Object_prototype) k)
  end.

(** [v?.k] *)
Definition get_opt (v : value) (k : string) : result value :=
  match v with
  | Undefined | Json JNull => Ok Undefined
  | _ => get v k
  end.

Definition Array_isArray (v : value) : bool :=
  match v with
  | Json (JArr _) => true
  | _ => false
  end.

(** The elements of a value known to be an array. *)
Definition elements (v : value) : list json :=
  match v with
  | Json (JArr items) => items
  | _ => []
  end.

Fixpoint chars (s : string) : list json :=
  match s with
  | EmptyString => []
  | String c rest => JStr (String c EmptyString) :: chars rest
  end.

(** [Object.values(v)]: the own enumerable property values, in order. *)
Definition Object_values (v : value) : result (list json) :=
  match v with
  | Undefined | Json JNull =>
      Throw (TypeError "Cannot convert undefined or null to object")
  | Json (JObj props) => Ok (map snd props)
  | Json (JArr items) => Ok items
  | Json (JStr s) => Ok (chars s)
  | Json (JNum _) | Json (JBool _) | Native _ => Ok []
  end.

(** ToString of a parsed value, as a template literal [`${x}`] applies it.
    An array prints its elements joined by commas, [null] elements as the
    empty string.  An object prints as [[object Object]], unless it has a
    property of its own called [toString]: that property is not callable,
    [valueOf] returns no primitive either, and the conversion throws. *)
Fixpoint json_to_string (j : json) : result string :=
  match j with
  | JNull => Ok "null"
  | JBool b => Ok (if b then "true" else "false")
  | JNum n => Ok (pretty n)
  | JStr s => Ok s
  | JArr items =>
      parts ← (fix each (l : list json) : result (list string) :=
                 match l with
                 | [] => Ok []
                 | x :: rest =>
                     s ← match x with
                         | JNull => Ok ""
                         | _ => json_to_string x
                         end;
                     ss ← each rest;
                     Ok (s :: ss)
                 end) items;
      Ok (String.concat "," parts)
  | JObj props =>
      match assoc "toString" props with
      | Some _ => Throw (TypeError "Cannot convert object to primitive value")
      | None => Ok "[object Object]"
      end
  end.

(** ToString of any value.  The text of a built-in function is the one V8
    gives; other engines lay it out differently. *)
Definition to_string (v : value) : result string :=
  match v with
  | Undefined => Ok "undefined"
  | Native f => Ok ("function " +:+ f +:+ "() { [native code] }")
  | Json j => json_to_string j
  end.

(** [items.map(f).join('')] *)
Definition map_join (f : json -> result string) (items : list json) : result string :=
  parts ← mapM f items; Ok (String.concat "" parts).

(* ===================================================================== *)
(** * 2. The content loader                                               *)
(* ===================================================================== *)

(** The two copies of the script. *)
Inductive variant : Type :=
| Strict      (* src/js/app.js *)
| Defensive.  (* the copy with the guarded reads *)

(** ** The network, as [fetch] shows it to the script *)

(** What decoding the body of a response gives: reading it fails, or the
    text is read and [JSON.parse] rejects it with a message, or the text
    parses. *)
Inductive body_outcome : Type :=
| BodyFails (e : js_error)
| BodyMalformed (message : string)
| BodyParses (data : json).

Record response : Type := Response {
  ok : bool;
  body : body_outcome
}.

Inductive fetch_outcome : Type :=
| FetchRejects (e : js_error)
| FetchResolves (r : response).

(** One outcome per URL. *)
Definition network : Type := string -> fetch_outcome.

(** ** What the script does to the outside: requests and console lines *)

Inductive log_arg : Type :=
| LogStr (s : string)
| LogErr (e : js_error).

Inductive event : Type :=
| Fetch (url : string)
| ConsoleError (args : list log_arg)
| ConsoleLog (args : list log_arg).

Definition is_fetch (ev : event) : bool :=
  match ev with
  | Fetch _ => true
  | _ => false
  end.

(** The number of requests in a trace. *)
Definition fetches (trace : list event) : nat :=
  length (filter (fun ev => is_fetch ev = true) trace).

(** ** [dataCache] *)

(** [const dataCache = {}]: a plain object used as a map.  Its own
    properties are the finite map; a read that finds no own property falls
    through to [Object.prototype]. *)
Definition dataCache_get (dataCache : gmap string json) (filename : string) : value :=
  match dataCache !! filename with
  | Some data => Json data
  | None => inherited Object_prototype filename
  end.

Definition data_url (filename : string) : string :=
  "data/" +:+ filename +:+ ".json".

(** The outer [catch (error)] of [loadData]. *)
Definition transport_diagnostic (filename : string) (error : js_error) : event :=
  ConsoleError [LogStr ("Error loading " +:+ filename +:+ ":"); LogErr error].

(** The inner [catch (parseError)] of the defensive copy. *)
Definition syntax_diagnostic (filename message : string) : list event :=
  [ ConsoleError [LogStr ("JSON syntax error in " +:+ filename +:+ ".json:");
                  LogStr message];
    ConsoleError [LogStr "Check for missing commas, extra commas, or unclosed brackets"] ].

(** ** [loadData]

    One call of [loadData], awaited to its end: the value its promise is
    fulfilled with, the cache afterwards, and the requests and console
    lines of the call, in order.  Every exception is caught inside, so the
    promise is never rejected. *)
Definition loadData (v : variant) (net : network) (filename : string)
    (dataCache : gmap string json) : value * gmap string json * list event :=
  if truthy (dataCache_get dataCache filename) then
    (dataCache_get dataCache filename, dataCache, [])
  else
    let request := Fetch (data_url filename) in
    match net (data_url filename) with
    | FetchRejects error =>
        (Json JNull, dataCache, [request; transport_diagnostic filename error])
    | FetchResolves r =>
        if negb (ok r) then
          (Json JNull, dataCache,
           [request;
            transport_diagnostic filename (Error ("Failed to load " +:+ filename))])
        else
          match body r with
          | BodyFails error =>
              (Json JNull, dataCache, [request; transport_diagnostic filename error])
          | BodyMalformed message =>
              match v with
              | Strict =>
                  (Json JNull, dataCache,
                   [request; transport_diagnostic filename (SyntaxError message)])
              | Defensive =>
                  (Json JNull, dataCache,
                   request :: syntax_diagnostic filename message)
              end
          | BodyParses data =>
              (Json data, <[filename := data]> dataCache, [request])
          end
    end.

(* ===================================================================== *)
(** * 3. The page                                                         *)
(* ===================================================================== *)

(** The page skeleton is not part of the scripts.  The model keeps, for
    every element the scripts look up, what was last written into it; the
    key is the selector path that finds the element ([#about h2] for
    [document.querySelector('#about').querySelector('h2')]).  A selector
    that is not a key of the map finds no element.  Elements found by
    different paths are taken to be different elements, none of them inside
    what is written into another. *)
Inductive content : Type :=
| Text (s : string)        (* written through [textContent] *)
| Html (markup : string).  (* written through [innerHTML] *)

(** A piece of script that works on the page and may throw. *)
Definition dom_action (A : Type) : Type :=
  gmap string content -> gmap string content * result A.

Global Instance dom_action_ret : MRet dom_action := fun A a d => (d, Ok a).

Global Instance dom_action_bind : MBind dom_action := fun A B k m d =>
  match m d with
  | (d', Ok a) => k a d'
  | (d', Throw e) => (d', Throw e)
  end.

(** A computation that does not touch the page. *)
Definition lift {A : Type} (r : result A) : dom_action A :=
  fun d => (d, r).

(** [document.querySelector(sel)]: the element, or [null].  The lookup
    sees the elements of the page as it was loaded; an element that a
    browser would build from markup written through [innerHTML] is not one
    of them, so what is proved with this lookup is about documents whose
    markup answers none of the selectors the scripts look up. *)
Definition querySelector (sel : string) : dom_action (option string) :=
  fun d => (d, Ok (match d !! sel with Some _ => Some sel | None => None end)).

(** [parent.querySelector(sel)] *)
Definition querySelector_in (parent : option string) (sel : string)
  : dom_action (option string) :=
  match parent with
  | None =>
      lift (Throw (TypeError "Cannot read properties of null (reading 'querySelector')"))
  | Some p => querySelector (p +:+ " " +:+ sel)
  end.

(** Replace what an element holds. *)
Definition write (sel : string) (c : content) : dom_action unit :=
  fun d => (<[sel := c]> d, Ok tt).

(** The string a [textContent] setter receives: [undefined] and [null]
    give the empty text. *)
Definition text_of (v : value) : result string :=
  match v with
  | Undefined | Json JNull => Ok ""
  | _ => to_string v
  end.

(** [el.textContent = v] *)
Definition set_textContent (el : option string) (v : value) : dom_action unit :=
  match el with
  | None =>
      lift (Throw (TypeError "Cannot set properties of null (setting 'textContent')"))
  | Some sel =>
      s ← lift (text_of v);
      write sel (Text s)
  end.

(** [el.innerHTML = markup].  The element holds the markup as the text
    that was assigned; the children a browser parses out of it are left
    out of the page. *)
Definition set_innerHTML (el : option string) (markup : string) : dom_action unit :=
  match el with
  | None =>
      lift (Throw (TypeError "Cannot set properties of null (setting 'innerHTML')"))
  | Some sel => write sel (Html markup)
  end.

(** ** Pieces of markup *)

Definition dq : string := String (ascii_of_nat 34) EmptyString.
Definition nl : string := String (ascii_of_nat 10) EmptyString.

Fixpoint sp (n : nat) : string :=
  match n with
  | O => ""
  | S m => " " +:+ sp m
  end.

(** [<name class="cls">] *)
Definition open_tag (name cls : string) : string :=
  "<" +:+ name +:+ " class=" +:+ dq +:+ cls +:+ dq +:+ ">".

(** [v.map(f).join('')]: [v] has to be an array. *)
Definition array_map_join (v : value) (f : json -> result string) : result string :=
  match v with
  | Json (JArr items) => map_join f items
  | Undefined | Json JNull =>
      Throw (TypeError "Cannot read properties of undefined (reading 'map')")
  | _ => Throw (TypeError "map is not a function")
  end.

(** [s.replace(pattern, replacement)] for a string pattern: the first
    occurrence only. *)
Definition replace_first (pattern replacement s : string) : string :=
  match index 0 pattern s with
  | Some i =>
      substring 0 i s +:+ replacement +:+
      substring (i + String.length pattern)
                (String.length s - (i + String.length pattern)) s
  | None => s
  end.

(** [v.replace(' Kitchen', '')]: [v] has to be a string. *)
Definition strip_kitchen (v : value) : result value :=
  match v with
  | Json (JStr s) => Ok (Json (JStr (replace_first " Kitchen" "" s)))
  | Undefined | Json JNull =>
      Throw (TypeError "Cannot read properties of undefined (reading 'replace')")
  | _ => Throw (TypeError "replace is not a function")
  end.

(* ===================================================================== *)
(** * 4. The section renderers                                            *)
(* ===================================================================== *)

(** Each renderer below is the part of the function that follows
    [await loadData(..)]; its argument is the value that came back. *)

(** [renderSite] is the same in both copies. *)
Definition renderSite (site : value) : dom_action unit :=
  if negb (truthy site) then mret tt else
  (* Hero section *)
  h1 ← querySelector ".hero h1";
  name ← lift (get site "name");
  set_textContent h1 name;;
  tagline_el ← querySelector ".tagline";
  tagline ← lift (get site "tagline");
  set_textContent tagline_el tagline;;
  subtitle_el ← querySelector ".subtitle";
  subtitle ← lift (get site "subtitle");
  set_textContent subtitle_el subtitle;;
  (* Navigation *)
  nav_logo ← querySelector ".nav-logo";
  short ← lift (name ← get site "name"; strip_kitchen name);
  set_textContent nav_logo short;;
  (* Footer *)
  footer_logo ← querySelector ".footer-logo";
  name ← lift (get site "name");
  set_textContent footer_logo name;;
  copyright_el ← querySelector ".copyright";
  copyright ← lift (c ← get site "copyright"; to_string c);
  set_innerHTML copyright_el ("&copy; " +:+ copyright).

(** ** The markup of one item

    The template literals of the two copies, as functions of the strings
    that fill their holes.  The copies differ in their indentation only
    where a template is nested more deeply in one than in the other: [n]
    is the column of the outermost tag. *)

Definition paragraph_markup (p : string) : string :=
  "<p>" +:+ p +:+ "</p>".

Definition feature_markup (icon text : string) : string :=
  nl +:+ sp 12 +:+ open_tag "div" "feature" +:+
  nl +:+ sp 16 +:+ open_tag "span" "feature-icon" +:+ icon +:+ "</span>" +:+
  nl +:+ sp 16 +:+ "<span>" +:+ text +:+ "</span>" +:+
  nl +:+ sp 12 +:+ "</div>" +:+
  nl +:+ sp 8.

Definition dish_markup (n : nat) (name description : string) : string :=
  nl +:+ sp n +:+ "<li>" +:+
  nl +:+ sp (n + 4) +:+ open_tag "span" "dish-name" +:+ name +:+ "</span>" +:+
  nl +:+ sp (n + 4) +:+ open_tag "span" "dish-desc" +:+ description +:+ "</span>" +:+
  nl +:+ sp n +:+ "</li>" +:+
  nl +:+ sp (n - 4).

Definition category_markup (n : nat) (name dishes : string) : string :=
  nl +:+ sp n +:+ open_tag "div" "menu-category" +:+
  nl +:+ sp (n + 4) +:+ "<h3>" +:+ name +:+ "</h3>" +:+
  nl +:+ sp (n + 4) +:+ "<ul>" +:+
  nl +:+ sp (n + 8) +:+ dishes +:+
  nl +:+ sp (n + 4) +:+ "</ul>" +:+
  nl +:+ sp n +:+ "</div>" +:+
  nl +:+ sp (n - 4).

Definition service_markup (icon name description : string) : string :=
  nl +:+ sp 12 +:+ open_tag "div" "service-card" +:+
  nl +:+ sp 16 +:+ open_tag "div" "service-icon" +:+ icon +:+ "</div>" +:+
  nl +:+ sp 16 +:+ "<h3>" +:+ name +:+ "</h3>" +:+
  nl +:+ sp 16 +:+ "<p>" +:+ description +:+ "</p>" +:+
  nl +:+ sp 12 +:+ "</div>" +:+
  nl +:+ sp 8.

(** [<a href="${href}">${value}</a>] *)
Definition link_markup (href value : string) : string :=
  "<a href=" +:+ dq +:+ href +:+ dq +:+ ">" +:+ value +:+ "</a>".

Definition contact_markup (icon label line : string) : string :=
  nl +:+ sp 12 +:+ open_tag "div" "contact-item" +:+
  nl +:+ sp 16 +:+ open_tag "span" "contact-icon" +:+ icon +:+ "</span>" +:+
  nl +:+ sp 16 +:+ "<div>" +:+
  nl +:+ sp 20 +:+ "<h4>" +:+ label +:+ "</h4>" +:+
  nl +:+ sp 20 +:+ "<p>" +:+ line +:+ "</p>" +:+
  nl +:+ sp 16 +:+ "</div>" +:+
  nl +:+ sp 12 +:+ "</div>" +:+
  nl +:+ sp 8.

(** What is written into [.contact-cta]. *)
Definition cta_markup (cta_text href cta_button : string) : string :=
  nl +:+ sp 8 +:+ "<p>" +:+ cta_text +:+ "</p>" +:+
  nl +:+ sp 8 +:+ "<a href=" +:+ dq +:+ href +:+ dq +:+ " class=" +:+ dq +:+
    "cta-button" +:+ dq +:+ ">" +:+ cta_button +:+ "</a>" +:+
  nl +:+ sp 4.

(** What is written into [.about-text]. *)
Definition about_markup (paragraphs features : string) : string :=
  nl +:+ sp 8 +:+ paragraphs +:+
  nl +:+ sp 8 +:+ features +:+
  nl +:+ sp 4.

(** [<div class="features">${featuresHtml}</div>] *)
Definition features_markup (featuresHtml : string) : string :=
  open_tag "div" "features" +:+ featuresHtml +:+ "</div>".

(** ** The renderers of [src/js/app.js] *)
Module Strict.

(** [${item.k}] *)
Definition show (item : value) (k : string) : result string :=
  x ← get item k; to_string x.

Definition paragraph (p : json) : result string :=
  s ← to_string p; Ok (paragraph_markup s).

Definition feature (f : json) : result string :=
  icon ← show f "icon";
  text ← show f "text";
  Ok (feature_markup icon text).

Definition renderAbout (about : value) : dom_action unit :=
  if negb (truthy about) then mret tt else
  section ← querySelector "#about";
  h2 ← querySelector_in section "h2";
  title ← lift (get about "title");
  set_textContent h2 title;;
  (* Paragraphs *)
  textContainer ← querySelector_in section ".about-text";
  paragraphsHtml ← lift (paragraphs ← get about "paragraphs";
                         array_map_join paragraphs paragraph);
  (* Features *)
  featuresHtml ← lift (features ← get about "features";
                       array_map_join features feature);
  set_innerHTML textContainer
    (about_markup paragraphsHtml (features_markup featuresHtml)).

Definition dish (item : json) : result string :=
  name ← show item "name";
  description ← show item "description";
  Ok (dish_markup 24 name description).

Definition category (c : json) : result string :=
  name ← show c "name";
  dishes ← (items ← get c "items"; array_map_join items dish);
  Ok (category_markup 12 name dishes).

Definition renderMenu (menu : value) : dom_action unit :=
  if negb (truthy menu) then mret tt else
  section ← querySelector "#menu";
  h2 ← querySelector_in section "h2";
  title ← lift (get menu "title");
  set_textContent h2 title;;
  (* Categories *)
  gridContainer ← querySelector_in section ".menu-grid";
  categoriesHtml ← lift (categories ← get menu "categories";
                         array_map_join categories category);
  set_innerHTML gridContainer categoriesHtml;;
  (* Note *)
  note_el ← querySelector_in section ".menu-note";
  note ← lift (get menu "note");
  set_textContent note_el note.

Definition service_card (service : json) : result string :=
  icon ← show service "icon";
  name ← show service "name";
  description ← show service "description";
  Ok (service_markup icon name description).

Definition renderServices (services : value) : dom_action unit :=
  if negb (truthy services) then mret tt else
  section ← querySelector "#services";
  h2 ← querySelector_in section "h2";
  title ← lift (get services "title");
  set_textContent h2 title;;
  (* Service cards *)
  gridContainer ← querySelector_in section ".services-grid";
  servicesHtml ← lift (items ← get services "items";
                       array_map_join items service_card);
  set_innerHTML gridContainer servicesHtml.

Definition contact_item (item : json) : result string :=
  icon ← show item "icon";
  label ← show item "label";
  link ← get item "link";
  line ← (if truthy link
          then href ← show item "link";
               value ← show item "value";
               Ok (link_markup href value)
          else show item "value");
  Ok (contact_markup icon label line).

(** [details.phone.link] *)
Definition phoneLink (details : value) : result value :=
  phone ← get details "phone"; get phone "link".

(** The markup written into [.contact-cta]. *)
Definition cta (contact details : value) : result string :=
  cta_text ← show contact "cta_text";
  href ← (link ← phoneLink details; to_string link);
  cta_button ← show contact "cta_button";
  Ok (cta_markup cta_text href cta_button).

(** The markup written into [.contact-info]. *)
Definition contactHtml (details : value) : result string :=
  items ← Object_values details; map_join contact_item items.

Definition renderContact (contact : value) : dom_action unit :=
  if negb (truthy contact) then mret tt else
  section ← querySelector "#contact";
  h2 ← querySelector_in section "h2";
  title ← lift (get contact "title");
  set_textContent h2 title;;
  (* Contact details *)
  infoContainer ← querySelector_in section ".contact-info";
  details ← lift (get contact "details");
  html ← lift (contactHtml details);
  set_innerHTML infoContainer html;;
  (* CTA *)
  ctaContainer ← querySelector_in section ".contact-cta";
  markup ← lift (cta contact details);
  set_innerHTML ctaContainer markup.

End Strict.

(** ** The renderers of the defensive copy *)
Module Defensive.

(** [${item.k || fallback}] *)
Definition show (item : value) (k fallback : string) : result string :=
  x ← get item k; to_string (or_else x (JStr fallback)).

(** [Array.isArray(doc.k) ? doc.k : []] *)
Definition group (doc : value) (k : string) : result (list json) :=
  x ← get doc k; Ok (if Array_isArray x then elements x else []).

Definition paragraph (p : json) : result string :=
  s ← to_string p; Ok (paragraph_markup s).

Definition feature (f : json) : result string :=
  icon ← show f "icon" "";
  text ← show f "text" "";
  Ok (feature_markup icon text).

(** [const paragraphsHtml = ..] *)
Definition paragraphsHtml (about : value) : result string :=
  paragraphs ← group about "paragraphs"; map_join paragraph paragraphs.

(** [${features.length ? `<div class="features">${featuresHtml}</div>` : ''}] *)
Definition featuresBlock (about : value) : result string :=
  features ← group about "features";
  featuresHtml ← map_join feature features;
  Ok (if (0 <? length features)%nat then features_markup featuresHtml else "").

Definition renderAbout (about : value) : dom_action unit :=
  if negb (truthy about) then mret tt else
  section ← querySelector "#about";
  h2 ← querySelector_in section "h2";
  title ← lift (get about "title");
  set_textContent h2 (or_else title (JStr "About Us"));;
  (* Paragraphs - handle any number *)
  textContainer ← querySelector_in section ".about-text";
  paragraphs ← lift (paragraphsHtml about);
  (* Features - handle any number *)
  features ← lift (featuresBlock about);
  set_innerHTML textContainer (about_markup paragraphs features).

Definition dish (item : json) : result string :=
  name ← show item "name" "";
  description ← show item "description" "";
  Ok (dish_markup 28 name description).

Definition category (c : json) : result string :=
  items ← group c "items";
  name ← show c "name" "Menu";
  dishes ← map_join dish items;
  Ok (category_markup 16 name dishes).

(** [const categoriesHtml = ..] *)
Definition categoriesHtml (menu : value) : result string :=
  categories ← group menu "categories"; map_join category categories.

Definition renderMenu (menu : value) : dom_action unit :=
  if negb (truthy menu) then mret tt else
  section ← querySelector "#menu";
  h2 ← querySelector_in section "h2";
  title ← lift (get menu "title");
  set_textContent h2 (or_else title (JStr "Our Menu"));;
  (* Categories - handle any number of categories and items *)
  gridContainer ← querySelector_in section ".menu-grid";
  html ← lift (categoriesHtml menu);
  set_innerHTML gridContainer html;;
  (* Note *)
  note_el ← querySelector_in section ".menu-note";
  note ← lift (get menu "note");
  set_textContent note_el (or_else note (JStr "")).

Definition service_card (service : json) : result string :=
  icon ← show service "icon" "";
  name ← show service "name" "";
  description ← show service "description" "";
  Ok (service_markup icon name description).

(** [const servicesHtml = ..] *)
Definition servicesHtml (services : value) : result string :=
  items ← group services "items"; map_join service_card items.

Definition renderServices (services : value) : dom_action unit :=
  if negb (truthy services) then mret tt else
  section ← querySelector "#services";
  h2 ← querySelector_in section "h2";
  title ← lift (get services "title");
  set_textContent h2 (or_else title (JStr "Our Services"));;
  (* Service cards - handle any number *)
  gridContainer ← querySelector_in section ".services-grid";
  html ← lift (servicesHtml services);
  set_innerHTML gridContainer html.

Definition contact_item (item : json) : result string :=
  icon ← show item "icon" "";
  label ← show item "label" "";
  link ← get item "link";
  line ← (if truthy link
          then href ← to_string link;
               value ← show item "value" "";
               Ok (link_markup href value)
          else show item "value" "");
  Ok (contact_markup icon label line).

(** [const details = contact.details || {}] *)
Definition details_of (contact : value) : result value :=
  details ← get contact "details"; Ok (or_else details (JObj [])).

(** [const detailItems = Object.values(details)] *)
Definition detailItems (contact : value) : result (list json) :=
  details ← details_of contact; Object_values details.

(** [const contactHtml = ..] *)
Definition contactHtml (contact : value) : result string :=
  items ← detailItems contact; map_join contact_item items.

(** [const phoneLink = details.phone?.link || '#contact'] *)
Definition phoneLink (contact : value) : result value :=
  details ← details_of contact;
  phone ← get details "phone";
  link ← get_opt phone "link";
  Ok (or_else link (JStr "#contact")).

(** The markup written into [.contact-cta]. *)
Definition cta (contact : value) : result string :=
  link ← phoneLink contact;
  cta_text ← show contact "cta_text" "";
  href ← to_string link;
  cta_button ← show contact "cta_button" "Contact Us";
  Ok (cta_markup cta_text href cta_button).

Definition renderContact (contact : value) : dom_action unit :=
  if negb (truthy contact) then mret tt else
  section ← querySelector "#contact";
  h2 ← querySelector_in section "h2";
  title ← lift (get contact "title");
  set_textContent h2 (or_else title (JStr "Contact Us"));;
  (* Contact details - handle any number of contact items *)
  infoContainer ← querySelector_in section ".contact-info";
  html ← lift (contactHtml contact);
  set_innerHTML infoContainer html;;
  (* CTA *)
  ctaContainer ← querySelector_in section ".contact-cta";
  markup ← lift (cta contact);
  set_innerHTML ctaContainer markup.

End Defensive.

(** ** The five sections *)

Inductive section_name : Type :=
| Site | About | Menu | Services | Contact.

(** The document each renderer asks [loadData] for. *)
Definition filename (s : section_name) : string :=
  match s with
  | Site => "site"
  | About => "about"
  | Menu => "menu"
  | Services => "services"
  | Contact => "contact"
  end.

(** The renderer of a section, from the value [loadData] came back with. *)
Definition renderer (v : variant) (s : section_name) : value -> dom_action unit :=
  match v, s with
  | _, Site => renderSite
  | Strict, About => Strict.renderAbout
  | Strict, Menu => Strict.renderMenu
  | Strict, Services => Strict.renderServices
  | Strict, Contact => Strict.renderContact
  | Defensive, About => Defensive.renderAbout
  | Defensive, Menu => Defensive.renderMenu
  | Defensive, Services => Defensive.renderServices
  | Defensive, Contact => Defensive.renderContact
  end.

(** The elements a section's renderer looks up. *)
Definition targets (s : section_name) : list string :=
  match s with
  | Site => [".hero h1"; ".tagline"; ".subtitle"; ".nav-logo"; ".footer-logo";
             ".copyright"]
  | About => ["#about"; "#about h2"; "#about .about-text"]
  | Menu => ["#menu"; "#menu h2"; "#menu .menu-grid"; "#menu .menu-note"]
  | Services => ["#services"; "#services h2"; "#services .services-grid"]
  | Contact => ["#contact"; "#contact h2"; "#contact .contact-info";
                "#contact .contact-cta"]
  end.

(** One renderer, called and awaited on its own: [loadData], then the rest
    of the function. *)
Definition render (v : variant) (net : network) (s : section_name)
    (dataCache : gmap string json) (page : gmap string content)
  : gmap string json * gmap string content * list event * result unit :=
  let '(data, dataCache', trace) := loadData v net (filename s) dataCache in
  let '(page', completion) := renderer v s data page in
  (dataCache', page', trace, completion).

(* ===================================================================== *)
(** * 5. The page chrome                                                  *)
(* ===================================================================== *)

(** The class list of each chrome element, by the selector that finds it. *)

Definition classList_contains (c : string) (classList : list string) : bool :=
  mem c classList.

Definition classList_add (c : string) (classList : list string) : list string :=
  if mem c classList then classList else classList ++ [c].

Definition classList_remove (c : string) (classList : list string) : list string :=
  List.filter (fun x => negb (String.eqb x c)) classList.

Definition classList_toggle (c : string) (classList : list string) : list string :=
  if mem c classList then classList_remove c classList else classList_add c classList.

(** A handler of [initNavigation] that changes one class list. *)
Definition on_classList (sel : string) (f : list string -> list string)
    (chrome : gmap string (list string)) : gmap string (list string) * result unit :=
  match chrome !! sel with
  | None =>
      (chrome, Throw (TypeError "Cannot read properties of null (reading 'classList')"))
  | Some classList => (<[sel := f classList]> chrome, Ok tt)
  end.

(** [window.scrollY > 50], on a finite position. *)
Definition past_threshold (scrollY : Q) : bool :=
  negb (Qle_bool scrollY 50).

(** The [scroll] listener. *)
Definition on_scroll (scrollY : Q) (chrome : gmap string (list string))
  : gmap string (list string) * result unit :=
  if past_threshold scrollY
  then on_classList ".navbar" (classList_add "scrolled") chrome
  else on_classList ".navbar" (classList_remove "scrolled") chrome.

(** Whether the navigation bar is in its scrolled state. *)
Definition scrolled (chrome : gmap string (list string)) : bool :=
  match chrome !! ".navbar" with
  | Some classList => classList_contains "scrolled" classList
  | None => false
  end.

(** Whether the element found by [sel] carries the class [c]. *)
Definition has_class (chrome : gmap string (list string)) (sel c : string) : bool :=
  match chrome !! sel with
  | Some classList => classList_contains c classList
  | None => false
  end.

(** One handler after another; an exception ends the listener. *)
Definition and_then (first second : gmap string (list string) ->
                                    gmap string (list string) * result unit)
    (chrome : gmap string (list string)) : gmap string (list string) * result unit :=
  match first chrome with
  | (chrome', Ok _) => second chrome'
  | (chrome', Throw e) => (chrome', Throw e)
  end.

(** The [click] listener of the toggle:
    [navMenu.classList.toggle('active'); navToggle.classList.toggle('active')]. *)
Definition on_toggle_click (chrome : gmap string (list string))
  : gmap string (list string) * result unit :=
  and_then (on_classList ".nav-menu" (classList_toggle "active"))
           (on_classList ".nav-toggle" (classList_toggle "active")) chrome.

(** The [click] listener of each link of the menu:
    [navMenu.classList.remove('active'); navToggle.classList.remove('active')]. *)
Definition on_link_click (chrome : gmap string (list string))
  : gmap string (list string) * result unit :=
  and_then (on_classList ".nav-menu" (classList_remove "active"))
           (on_classList ".nav-toggle" (classList_remove "active")) chrome.

(** [initNavigation]: the first thing it does is
    [navToggle.addEventListener], which throws when the page has no
    [.nav-toggle]; otherwise every listener gets installed. *)
Definition initNavigation (chrome : gmap string (list string)) : result unit :=
  match chrome !! ".nav-toggle" with
  | None =>
      Throw (TypeError "Cannot read properties of null (reading 'addEventListener')")
  | Some _ => Ok tt
  end.

(* ===================================================================== *)
(** * 6. The bootstrapper                                                 *)
(* ===================================================================== *)

(** [init] calls the five renderers one after the other; each runs up to
    its first [await] and hands back a promise.  From then on the event
    loop resumes one suspended function at a time, in an order the script
    does not choose: every order is allowed here.  A renderer is suspended
    inside [loadData] (at the [fetch] or at the body), or at its own
    [await loadData(..)] with the value in hand; then it is settled.  The
    reaction of [Promise.all] to a renderer that settles is part of the
    turn in which it settles; [init] goes on in a turn of its own. *)

Inductive load_pc : Type :=
| Fetching                 (* at [await fetch(`data/${filename}.json`)] *)
| Decoding (r : response)  (* at [await response.json()] / [await response.text()] *)
| Returned (data : value). (* [loadData] has returned [data] *)

Inductive task : Type :=
| Loading (pc : load_pc)
| Settled (completion : result unit).

(** [loadData] from the call to its first [await], or to the early
    [return]. *)
Definition loadData_enter (name : string) (dataCache : gmap string json)
  : load_pc * list event :=
  if truthy (dataCache_get dataCache name)
  then (Returned (dataCache_get dataCache name), [])
  else (Fetching, [Fetch (data_url name)]).

(** [loadData] once [fetch] has settled. *)
Definition loadData_fetched (name : string) (o : fetch_outcome)
  : load_pc * list event :=
  match o with
  | FetchRejects error => (Returned JNull, [transport_diagnostic name error])
  | FetchResolves r =>
      if negb (ok r)
      then (Returned JNull,
            [transport_diagnostic name (Error ("Failed to load " +:+ name))])
      else (Decoding r, [])
  end.

(** [loadData] once the body has settled. *)
Definition loadData_decoded (v : variant) (name : string) (b : body_outcome)
    (dataCache : gmap string json) : load_pc * gmap string json * list event :=
  match b with
  | BodyFails error =>
      (Returned JNull, dataCache, [transport_diagnostic name error])
  | BodyMalformed message =>
      match v with
      | Strict =>
          (Returned JNull, dataCache,
           [transport_diagnostic name (SyntaxError message)])
      | Defensive =>
          (Returned JNull, dataCache, syntax_diagnostic name message)
      end
  | BodyParses data =>
      (Returned data, <[name := data]> dataCache, [])
  end.

(** The promise of [Promise.all([..])]. *)
Inductive join : Type :=
| Pending
| Fulfilled
| Rejected (reason : js_error).

Record world : Type := World {
  dataCache : gmap string json;
  page : gmap string content;
  chrome : gmap string (list string);
  console : list event;
  tasks : section_name -> task;
  all : join;
  init_done : bool;   (* [init] has run past [await Promise.all(..)] *)
  wired : bool        (* [initNavigation] has installed its listeners *)
}.

Definition section_name_eqb (a b : section_name) : bool :=
  match a, b with
  | Site, Site | About, About | Menu, Menu | Services, Services
  | Contact, Contact => true
  | _, _ => false
  end.

Definition set_task (s : section_name) (t : task) (ts : section_name -> task)
  : section_name -> task :=
  fun s' => if section_name_eqb s s' then t else ts s'.

Definition sections : list section_name := [Site; About; Menu; Services; Contact].

Definition fulfilled (t : task) : bool :=
  match t with
  | Settled (Ok _) => true
  | _ => false
  end.

Definition settled (t : task) : bool :=
  match t with
  | Settled _ => true
  | Loading _ => false
  end.

(** How [Promise.all] reacts when one of its promises settles: the first
    rejection rejects it, the last fulfilment fulfils it. *)
Definition react (completion : result unit) (ts : section_name -> task) (j : join)
  : join :=
  match j, completion with
  | Pending, Throw e => Rejected e
  | Pending, Ok _ => if forallb (fun s => fulfilled (ts s)) sections then Fulfilled else Pending
  | _, _ => j
  end.

(** The event loop resumes either the renderer of a section or [init]. *)
Inductive turn : Type :=
| Resume (s : section_name)
| Continue.

(** A renderer runs from one [await] to the next. *)
Definition resume (v : variant) (net : network) (s : section_name) (w : world)
  : option world :=
  match tasks w s with
  | Settled _ => None
  | Loading Fetching =>
      let '(pc, lines) := loadData_fetched (filename s) (net (data_url (filename s))) in
      Some (World (dataCache w) (page w) (chrome w) (console w ++ lines)
                  (set_task s (Loading pc) (tasks w)) (all w) (init_done w) (wired w))
  | Loading (Decoding r) =>
      let '(pc, dataCache', lines) :=
        loadData_decoded v (filename s) (body r) (dataCache w) in
      Some (World dataCache' (page w) (chrome w) (console w ++ lines)
                  (set_task s (Loading pc) (tasks w)) (all w) (init_done w) (wired w))
  | Loading (Returned data) =>
      let '(page', completion) := renderer v s data (page w) in
      let tasks' := set_task s (Settled completion) (tasks w) in
      Some (World (dataCache w) page' (chrome w) (console w)
                  tasks' (react completion tasks' (all w)) (init_done w) (wired w))
  end.

(** [init] runs from [await Promise.all(..)] to its end. *)
Definition continue (w : world) : option world :=
  if init_done w then None else
  match all w with
  | Pending => None
  | Fulfilled =>
      match initNavigation (chrome w) with
      | Ok _ =>
          Some (World (dataCache w) (page w) (chrome w)
                      (console w ++ [ConsoleLog [LogStr "Uncle & Aunty Kitchen loaded successfully!"]])
                      (tasks w) (all w) true true)
      | Throw error =>
          Some (World (dataCache w) (page w) (chrome w)
                      (console w ++ [ConsoleError [LogStr "Error initializing app:"; LogErr error]])
                      (tasks w) (all w) true (wired w))
      end
  | Rejected error =>
      Some (World (dataCache w) (page w) (chrome w)
                  (console w ++ [ConsoleError [LogStr "Error initializing app:"; LogErr error]])
                  (tasks w) (all w) true (wired w))
  end.

Definition step (v : variant) (net : network) (t : turn) (w : world) : option world :=
  match t with
  | Resume s => resume v net s w
  | Continue => continue w
  end.

(** A schedule is the order in which the event loop takes its turns; a turn
    that has nothing to resume is skipped. *)
Fixpoint run (v : variant) (net : network) (schedule : list turn) (w : world) : world :=
  match schedule with
  | [] => w
  | t :: rest =>
      match step v net t w with
      | Some w' => run v net rest w'
      | None => run v net rest w
      end
  end.

(** The call of one renderer by [init]: up to its first [await]. *)
Definition call (s : section_name) (w : world) : world :=
  let '(pc, lines) := loadData_enter (filename s) (dataCache w) in
  World (dataCache w) (page w) (chrome w) (console w ++ lines)
        (set_task s (Loading pc) (tasks w)) (all w) (init_done w) (wired w).

(** [init] up to [await Promise.all(..)], on the page as it is when
    [DOMContentLoaded] fires; [dataCache] is still [{}]. *)
Definition init (page : gmap string content) (chrome : gmap string (list string))
  : world :=
  fold_left (fun w s => call s w) sections
    (World ∅ page chrome [] (fun _ => Loading Fetching) Pending false false).

(* ===================================================================== *)
(** * 7. The vocabulary of the properties                                 *)
(* ===================================================================== *)

(** The network outcomes that count as a failed retrieval or parse. *)
Definition failed (o : fetch_outcome) : bool :=
  match o with
  | FetchRejects _ => true
  | FetchResolves r =>
      negb (ok r) ||
      match body r with
      | BodyParses _ => false
      | _ => true
      end
  end.

(** [n] calls for the same name, one after the other, each awaited: the
    cache at the end and everything sent and printed on the way. *)
Fixpoint calls (v : variant) (net : network) (name : string) (n : nat)
    (dataCache : gmap string json) : gmap string json * list event :=
  match n with
  | O => (dataCache, [])
  | S m =>
      let '(_, dataCache', trace) := loadData v net name dataCache in
      let '(dataCache'', trace') := calls v net name m dataCache' in
      (dataCache'', trace ++ trace')
  end.

(** What has to hold of the promise of [Promise.all] and of the listeners,
    in every state the event loop can reach. *)
Definition barrier (w : world) : Prop :=
  (all w = Fulfilled -> forall s, tasks w s = Settled (Ok tt)) /\
  (wired w = true -> all w = Fulfilled).

(** A page that has every element the renderers look up, all empty, and
    the chrome elements with their classes. *)
Definition skeleton : gmap string content :=
  list_to_map (map (fun sel => (sel, Text "")) (concat (map targets sections))).

Definition plain_chrome : gmap string (list string) :=
  list_to_map [(".nav-toggle", ["nav-toggle"]); (".nav-menu", ["nav-menu"]);
               (".navbar", ["navbar"])].

(** A server that has a name for the site and an empty object for every
    other document. *)
Definition plain_net : network :=
  fun url =>
    if String.eqb url "data/site.json"
    then FetchResolves (Response true (BodyParses (JObj [("name", JStr "Uncle & Aunty Kitchen")])))
    else FetchResolves (Response true (BodyParses (JObj []))).

(** Two pages that hold the same in the elements [T]. *)
Definition agree (T : list string) (d1 d2 : gmap string content) : Prop :=
  forall k, In k T -> d1 !! k = d2 !! k.

(** A piece of script is confined to the elements [T] when it leaves every
    other element as it is, and when its outcome and what it leaves in [T]
    depend on nothing but what [T] holds. *)
Definition confined {A : Type} (T : list string) (m : dom_action A) : Prop :=
  (forall d k, ~ In k T -> fst (m d) !! k = d !! k) /\
  (forall d1 d2, agree T d1 d2 ->
     snd (m d1) = snd (m d2) /\ agree T (fst (m d1)) (fst (m d2))).

(** The turns of the schedule that resume the renderer of [s]. *)
Definition turn_of (s : section_name) (t : turn) : bool :=
  match t with
  | Resume s' => section_name_eqb s s'
  | Continue => false
  end.

(** What the rendering of a section consists of: where its renderer
    stands, and what the elements it looks up hold. *)
Definition same_view (s : section_name) (w1 w2 : world) : Prop :=
  tasks w1 s = tasks w2 s /\ agree (targets s) (page w1) (page w2).

(** The properties of an object after the assignment [obj.k = x]. *)
Fixpoint obj_set (k : string) (x : json) (props : list (string * json))
  : list (string * json) :=
  match props with
  | [] => [(k, x)]
  | (k', y) :: rest =>
      if String.eqb k k' then (k', x) :: rest else (k', y) :: obj_set k x rest
  end.

(** The property [k] is there and holds an array. *)
Definition holds_array (props : list (string * json)) (k : string) : bool :=
  match assoc k props with
  | Some (JArr _) => true
  | _ => false
  end.

(** [details] is missing, or holds [null], a boolean, a number or the
    empty string. *)
Definition no_details (props : list (string * json)) : bool :=
  match assoc "details" props with
  | None | Some JNull | Some (JBool _) | Some (JNum _) => true
  | Some (JStr s) => String.eqb s ""
  | Some (JArr _) | Some (JObj _) => false
  end.

(** A group whose property is missing or holds no array renders nothing. *)
Definition renders_nothing (k : string) (groupHtml : value -> result string) : Prop :=
  forall doc x : value,
    get doc k = Ok x -> Array_isArray x = false -> groupHtml doc = Ok "".

(** A renderer does to the page what it would do if the property held
    [[]]. *)
Definition as_if_empty (k : string) (render_section : value -> dom_action unit) : Prop :=
  forall (props : list (string * json)) (page : gmap string content),
    holds_array props k = false ->
    render_section (JObj props) page =
    render_section (JObj (obj_set k (JArr []) props)) page.

(** [needle] occurs somewhere in [text]. *)
Definition occurs (needle text : string) : bool :=
  match index 0 needle text with
  | Some _ => true
  | None => false
  end.

(** An item renders the same without the property [k] as with [k] holding
    the empty string. *)
Definition blank_when_absent (k : string) (template : json -> result string) : Prop :=
  forall props : list (string * json),
    assoc k props = None ->
    template (JObj props) = template (JObj (obj_set k (JStr "") props)).

(** ** The vocabulary of the further properties *)

(** The first console line of a failed call. *)
Definition names_the_file (name : string) (line : event) : Prop :=
  exists rest,
    line = ConsoleError (LogStr ("Error loading " +:+ name +:+ ":") :: rest) \/
    line = ConsoleError (LogStr ("JSON syntax error in " +:+ name +:+ ".json:") :: rest).

(** What the cache and the renderers that wait for a body owe to the
    network. *)
Definition from_network (net : network) (w : world) : Prop :=
  (forall s r,
     tasks w s = Loading (Decoding r) ->
     net (data_url (filename s)) = FetchResolves r /\ ok r = true) /\
  (forall name d,
     dataCache w !! name = Some d ->
     exists s r,
       name = filename s /\ net (data_url name) = FetchResolves r /\
       ok r = true /\ body r = BodyParses d).

(** The two lines [init] itself can print. *)
Definition init_line (l : event) : bool :=
  match l with
  | ConsoleLog _ => true
  | ConsoleError (LogStr heading :: _) => String.eqb heading "Error initializing app:"
  | _ => false
  end.

(** Enough turns for every renderer to reach its end, then a turn of
    [init]. *)
Definition to_the_end : list turn :=
  concat (map (fun s => repeat (Resume s) 3) sections) ++ [Continue].

(** The turns a renderer still needs. *)
Definition remaining (t : task) : nat :=
  match t with
  | Loading Fetching => 3
  | Loading (Decoding _) => 2
  | Loading (Returned _) => 1
  | Settled _ => 0
  end.

(** The line [init] prints at its end: the exception it caught, thrown by
    [Promise.all] or by [initNavigation], or its success. *)
Definition report (chrome0 : gmap string (list string)) (j : join) : event :=
  match j, initNavigation chrome0 with
  | Rejected e, _ | _, Throw e => ConsoleError [LogStr "Error initializing app:"; LogErr e]
  | _, Ok _ => ConsoleLog [LogStr "Uncle & Aunty Kitchen loaded successfully!"]
  end.

(** How the promise of [Promise.all], the end of [init] and the console
    stand to the five renderers, on a page whose chrome is [chrome0]. *)
Definition joined (chrome0 : gmap string (list string)) (w : world) : Prop :=
  chrome w = chrome0 /\
  (all w = Pending ->
   (exists s, settled (tasks w s) = false) /\
   forall s e, tasks w s <> Settled (Throw e)) /\
  (forall e, all w = Rejected e -> exists s, tasks w s = Settled (Throw e)) /\
  (all w = Fulfilled -> forall s, tasks w s = Settled (Ok tt)) /\
  (init_done w = false ->
   wired w = false /\ List.filter init_line (console w) = []) /\
  (init_done w = true ->
   all w <> Pending /\
   (wired w = true <-> all w = Fulfilled /\ is_Some (chrome0 !! ".nav-toggle")) /\
   List.filter init_line (console w) = [report chrome0 (all w)]).


(** The element a section's renderer writes its items into, last of all
    for the site. *)
Definition container (s : section_name) : string :=
  match s with
  | About => "#about .about-text"
  | Menu => "#menu .menu-grid"
  | Services => "#services .services-grid"
  | Site => ".copyright"
  | Contact => "#contact .contact-info"
  end.

(** Where the renderer of [s] can stand when the server has [doc] for it
    and [doc] makes it throw: never at a normal end, its element [k] as it
    was on the page [page0]. *)
Definition stuck (s : section_name) (k : string) (r : response) (doc : json)
    (page0 : gmap string content) (w : world) : Prop :=
  page w !! k = page0 !! k /\
  match tasks w s with
  | Loading Fetching => True
  | Loading (Decoding r') => r' = r
  | Loading (Returned data) => data = Json doc
  | Settled c => exists e, c = Throw e
  end.

(** Where the script can stand when every load fails: nothing cached,
    nothing written, every renderer on its way to a normal end. *)
Definition idle (page0 : gmap string content) (w : world) : Prop :=
  page w = page0 /\
  dataCache w = ∅ /\
  forall s,
    match tasks w s with
    | Loading (Returned data) => data = Json JNull
    | Settled c => c = Ok tt
    | _ => True
    end.

(** The property [k] of [item] is there and holds a truthy value. *)
Definition filled (item : value) (k : string) : bool :=
  match get item k with
  | Ok x => truthy x
  | Throw _ => false
  end.

(** The property [k] of [doc] holds an array, and every item of it has all
    of [ks]. *)
Definition group_complete (doc : value) (k : string) (ks : list string) : bool :=
  match get doc k with
  | Ok (Json (JArr items)) =>
      forallb (fun item : json => forallb (filled item) ks) items
  | _ => false
  end.

(** A document that has everything its renderer shows. *)
Definition complete (s : section_name) (doc : value) : bool :=
  match s with
  | Site => true
  | About =>
      filled doc "title" && group_complete doc "paragraphs" [] &&
      group_complete doc "features" ["icon"; "text"] &&
      match get doc "features" with
      | Ok x => (0 <? length (elements x))%nat
      | Throw _ => false
      end
  | Menu =>
      filled doc "title" && filled doc "note" &&
      match get doc "categories" with
      | Ok (Json (JArr categories)) =>
          forallb (fun c : json =>
                     filled c "name" &&
                     group_complete c "items" ["name"; "description"]) categories
      | _ => false
      end
  | Services =>
      filled doc "title" &&
      group_complete doc "items" ["icon"; "name"; "description"]
  | Contact =>
      filled doc "title" && filled doc "details" &&
      filled doc "cta_text" && filled doc "cta_button" &&
      match get doc "details" with
      | Ok details =>
          match Object_values details with
          | Ok items =>
              forallb (fun item : json =>
                         forallb (filled item) ["icon"; "label"; "value"]) items
          | Throw _ => false
          end &&
          match get details "phone" with
          | Ok phone => filled phone "link"
          | Throw _ => false
          end
      | Throw _ => false
      end
  end.

(** Two computations that end the same way: both normally, or both with
    the same exception. *)
Definition alike {A B : Type} (a : result A) (b : result B) : Prop :=
  match a, b with
  | Ok _, Ok _ => True
  | Throw e, Throw e' => e = e'
  | _, _ => False
  end.

(** The items the defensive renderer of a section maps its item template
    over. *)
Definition entries (s : section_name) (doc : value) : result (list json) :=
  match s with
  | Site => Ok []
  | About => Defensive.group doc "features"
  | Menu => Defensive.group doc "categories"
  | Services => Defensive.group doc "items"
  | Contact => Defensive.detailItems doc
  end.

(** The document the server has under a name: what the body of a response
    with a success status parses to. *)
Definition served (net : network) (name : string) : option json :=
  match net (data_url name) with
  | FetchRejects _ => None
  | FetchResolves r =>
      if ok r then
        match body r with
        | BodyParses data => Some data
        | _ => None
        end
      else None
  end.

(** The cache has a section's document from the moment its [loadData] has
    returned. *)
Definition cached (net : network) (w : world) : Prop :=
  forall s,
    dataCache w !! filename s =
    match tasks w s with
    | Loading Fetching | Loading (Decoding _) => None
    | _ => served net (filename s)
    end.



(* ===================================================================== *)
(** * 8. Properties of the loader                                         *)
(* ===================================================================== *)

Lemma dataCache_get_insert (dataCache : gmap string json) (name : string) (data : json) :
  dataCache_get (<[name := data]> dataCache) name = Json data.
Proof. unfold dataCache_get. now rewrite lookup_insert_eq. Qed.

(** The values a caller of [loadData] takes for "not found". *)
Lemma falsy_json (data : json) :
  truthy (Json data) = false <->
  data = JNull \/ data = JBool false \/ data = JNum 0 \/ data = JStr "".
Proof.
  split.
  - destruct data as [ | [] | n | s | | ]; simpl; try discriminate; auto.
    + intros H. apply negb_false_iff, Z.eqb_eq in H. subst. auto.
    + intros H. apply negb_false_iff, String.eqb_eq in H. subst. auto.
  - intros [-> | [-> | [-> | ->]]]; reflexivity.
Qed.

(** A call that finds the name in the cache asks the network nothing. *)
Lemma loadData_hit (v : variant) (net : network) (name : string)
    (dataCache : gmap string json) :
  truthy (dataCache_get dataCache name) = true ->
  loadData v net name dataCache = (dataCache_get dataCache name, dataCache, []).
Proof. intros H. unfold loadData. now rewrite H. Qed.

(** A call that does not find it sends exactly one request, first thing. *)
Lemma loadData_miss (v : variant) (net : network) (name : string)
    (dataCache : gmap string json) :
  truthy (dataCache_get dataCache name) = false ->
  exists lines,
    snd (loadData v net name dataCache) = Fetch (data_url name) :: lines /\
    fetches lines = 0%nat.
Proof.
  intros H. unfold loadData. rewrite H.
  destruct (net (data_url name)) as [e | [[] [e | m | data]]]; simpl;
    try destruct v; eauto.
Qed.

(** Whatever a call returns that is not [null] is in the cache afterwards. *)
Lemma loadData_result (v : variant) (net : network) (name : string)
    (dataCache dataCache' : gmap string json) (data : value) (trace : list event) :
  loadData v net name dataCache = (data, dataCache', trace) ->
  data = Json JNull \/ dataCache_get dataCache' name = data.
Proof.
  unfold loadData.
  destruct (truthy (dataCache_get dataCache name)) eqn:Hc.
  - intros [= <- <- <-]. now right.
  - destruct (net (data_url name)) as [e | [[] [e | m | d]]]; simpl;
      try destruct v; intros [= <- <- <-]; auto.
    all: right; apply dataCache_get_insert.
Qed.

(** C1, as amended: in both copies of the script, once a call of [loadData]
    has returned a truthy value for a name (an object, an array, a
    non-empty string, a non-zero number, [true]), a second call for the
    same name sends no request, whatever the network would answer, returns
    the same value and leaves the cache as it is. *)
Theorem loadData_second_call_cached (v : variant) (net net' : network) (name : string)
    (dataCache dataCache' : gmap string json) (data : value) (trace : list event) :
  loadData v net name dataCache = (data, dataCache', trace) ->
  truthy data = true ->
  loadData v net' name dataCache' = (data, dataCache', []).
Proof.
  intros Hfirst Htruthy.
  destruct (loadData_result _ _ _ _ _ _ _ Hfirst) as [-> | Hcached].
  - discriminate Htruthy.
  - rewrite <- Hcached at 1. apply loadData_hit. now rewrite Hcached.
Qed.

(** The document [{}] served for [site]: the second call is answered from
    the cache although the network has gone away. *)
Lemma loadData_second_call_cached_witness :
  let net := fun _ => FetchResolves (Response true (BodyParses (JObj []))) in
  let net' := fun _ => FetchRejects (TypeError "Failed to fetch") in
  loadData Strict net "site" ∅ =
    (Json (JObj []), {["site" := JObj []]}, [Fetch "data/site.json"]) /\
  loadData Strict net' "site" {["site" := JObj []]} =
    (Json (JObj []), {["site" := JObj []]}, []).
Proof.
  intros net net'.
  assert (H : loadData Strict net "site" ∅ =
              (Json (JObj []), {["site" := JObj []]}, [Fetch "data/site.json"]))
    by reflexivity.
  split; [exact H |].
  exact (loadData_second_call_cached Strict net net' "site" ∅ _ _ _ H eq_refl).
Defined.

(** C1 as it is written fails for a resource whose content is the number
    [0]: the first call succeeds (one request, no console line, [0]
    returned and stored under the name), and the second call sends a
    request again. *)
Lemma loadData_second_call_refetches_falsy :
  let net := fun _ => FetchResolves (Response true (BodyParses (JNum 0))) in
  loadData Strict net "site" ∅ =
    (Json (JNum 0), {["site" := JNum 0]}, [Fetch "data/site.json"]) /\
  loadData Strict net "site" {["site" := JNum 0]} =
    (Json (JNum 0), {["site" := JNum 0]}, [Fetch "data/site.json"]) /\
  loadData Defensive net "site" ∅ =
    (Json (JNum 0), {["site" := JNum 0]}, [Fetch "data/site.json"]) /\
  loadData Defensive net "site" {["site" := JNum 0]} =
    (Json (JNum 0), {["site" := JNum 0]}, [Fetch "data/site.json"]).
Proof.
  assert (Hidem : (<["site" := JNum 0]> ({["site" := JNum 0]} : gmap string json))
                  = {["site" := JNum 0]}) by apply insert_insert_eq.
  intros net. unfold loadData, dataCache_get.
  rewrite lookup_empty, lookup_singleton_eq. simpl. rewrite Hidem.
  repeat split.
Qed.

(** C2: in both copies of the script, when a call of [loadData] has sent
    its request and the retrieval or the parse fails (the request is
    rejected, the status is not a success, the body cannot be read or does
    not parse), the call returns [null] and leaves the cache exactly as it
    was; the next call for the same name sends a request again, whatever
    the network answers then. *)
Theorem loadData_failure_not_cached (v : variant) (net : network) (name : string)
    (dataCache dataCache' : gmap string json) (data : value) (trace : list event) :
  loadData v net name dataCache = (data, dataCache', trace) ->
  In (Fetch (data_url name)) trace ->
  failed (net (data_url name)) = true ->
  data = Json JNull /\
  dataCache' = dataCache /\
  forall net', fetches (snd (loadData v net' name dataCache')) = 1%nat.
Proof.
  intros Hcall Hsent Hfailed. unfold loadData in Hcall.
  destruct (truthy (dataCache_get dataCache name)) eqn:Hmiss.
  - injection Hcall as <- <- <-. destruct Hsent.
  - clear Hsent.
    assert (Hsame : data = Json JNull /\ dataCache' = dataCache).
    { destruct (net (data_url name)) as [e | [[] [e | m | d]]]; simpl in *;
        try destruct v; try discriminate Hfailed;
        injection Hcall as <- <- <-; auto. }
    destruct Hsame as [-> ->]. repeat split.
    intros net'.
    destruct (loadData_miss v net' name dataCache Hmiss) as (lines & -> & Hnone).
    unfold fetches in *. simpl. now rewrite Hnone.
Qed.

(** [menu] answered with status 404, then asked for again. *)
Lemma loadData_failure_not_cached_witness :
  let net := fun _ => FetchResolves (Response false (BodyParses (JObj []))) in
  loadData Defensive net "menu" ∅ =
    (Json JNull, ∅,
     [Fetch "data/menu.json";
      ConsoleError [LogStr "Error loading menu:"; LogErr (Error "Failed to load menu")]]) /\
  fetches (snd (loadData Defensive net "menu" ∅)) = 1%nat.
Proof.
  intros net.
  assert (H : loadData Defensive net "menu" ∅ =
              (Json JNull, ∅,
               [Fetch "data/menu.json";
                ConsoleError [LogStr "Error loading menu:";
                              LogErr (Error "Failed to load menu")]]))
    by reflexivity.
  split; [exact H |].
  refine (proj2 (proj2 (loadData_failure_not_cached Defensive net "menu" ∅ ∅ _ _ H _ _)) net).
  - simpl. auto.
  - reflexivity.
Defined.

(** In the defensive copy, a body that is read but does not parse gives
    [null], an untouched cache, and two console lines of its own: one that
    names the file and carries the parser's message, one that tells the
    author what to look for.  Neither is the line printed for a transport
    failure. *)
Lemma defensive_parse_failure_diagnostic (net : network) (name message : string)
    (dataCache : gmap string json) (r : response) :
  truthy (dataCache_get dataCache name) = false ->
  net (data_url name) = FetchResolves r ->
  ok r = true ->
  body r = BodyMalformed message ->
  loadData Defensive net name dataCache =
    (Json JNull, dataCache,
     [ Fetch (data_url name);
       ConsoleError [LogStr ("JSON syntax error in " +:+ name +:+ ".json:");
                     LogStr message];
       ConsoleError [LogStr "Check for missing commas, extra commas, or unclosed brackets"] ])
  /\ forall error, ~ In (transport_diagnostic name error) (syntax_diagnostic name message).
Proof.
  intros Hmiss Hnet Hok Hbody. split.
  - unfold loadData. now rewrite Hmiss, Hnet, Hok, Hbody.
  - intros error [H | [H | []]]; discriminate H.
Qed.

(** C7, where [src/js/app.js] departs from it: [data/menu.json] is served
    with a success status and a body that is not JSON.  The copy in
    [src/js/app.js] prints the one line it prints for every failure,
    [Error loading menu:] followed by the error object; the defensive copy
    prints the line that names [menu.json] as having a syntax error and the
    line of advice. *)
Theorem strict_parse_failure_diagnostic :
  let net := fun _ =>
    FetchResolves (Response true (BodyMalformed "Unexpected end of JSON input")) in
  loadData Strict net "menu" ∅ =
    (Json JNull, ∅,
     [ Fetch "data/menu.json";
       transport_diagnostic "menu" (SyntaxError "Unexpected end of JSON input") ])
  /\
  loadData Defensive net "menu" ∅ =
    (Json JNull, ∅,
     [ Fetch "data/menu.json";
       ConsoleError [LogStr "JSON syntax error in menu.json:";
                     LogStr "Unexpected end of JSON input"];
       ConsoleError [LogStr "Check for missing commas, extra commas, or unclosed brackets"] ]).
Proof. split; reflexivity. Qed.

Lemma renderer_falsy (v : variant) (s : section_name) (data : value)
    (page : gmap string content) :
  truthy data = false -> renderer v s data page = (page, Ok tt).
Proof.
  intros H.
  destruct v, s; simpl;
    unfold renderSite, Strict.renderAbout, Strict.renderMenu, Strict.renderServices,
      Strict.renderContact, Defensive.renderAbout, Defensive.renderMenu,
      Defensive.renderServices, Defensive.renderContact;
    now rewrite H.
Qed.

Lemma loadData_falsy (v : variant) (net : network) (name : string)
    (dataCache : gmap string json) (data : json) :
  truthy (dataCache_get dataCache name) = false ->
  net (data_url name) = FetchResolves (Response true (BodyParses data)) ->
  loadData v net name dataCache =
    (Json data, <[name := data]> dataCache, [Fetch (data_url name)]).
Proof. intros Hmiss Hnet. unfold loadData. now rewrite Hmiss, Hnet. Qed.

(** C10: in both copies of the script, take a name that is not a hit yet
    and whose resource parses to [false], [0], the empty string or [null].
    Each call of [loadData] for it sends a request, returns the parsed
    value and stores it, and the lookup still fails afterwards: [n] calls
    in a row send [n] requests.  Every section renderer handed such a value
    returns at once and leaves the page as it is, as it does for [null]. *)
Theorem falsy_document_never_hits (v : variant) (net : network) (name : string)
    (dataCache : gmap string json) (data : json) :
  truthy (dataCache_get dataCache name) = false ->
  net (data_url name) = FetchResolves (Response true (BodyParses data)) ->
  In data [JBool false; JNum 0; JStr ""; JNull] ->
  loadData v net name dataCache =
    (Json data, <[name := data]> dataCache, [Fetch (data_url name)]) /\
  truthy (dataCache_get (<[name := data]> dataCache) name) = false /\
  (forall n, fetches (snd (calls v net name n dataCache)) = n) /\
  (forall s page, renderer v s (Json data) page = (page, Ok tt)) /\
  (forall s page, renderer v s (Json data) page = renderer v s (Json JNull) page).
Proof.
  intros Hmiss Hnet Hin.
  assert (Hfalsy : truthy (Json data) = false).
  { apply falsy_json. simpl in Hin. intuition (subst; auto). }
  split; [now apply loadData_falsy |].
  split; [now rewrite dataCache_get_insert |].
  split; [| split].
  - intros n. revert dataCache Hmiss.
    induction n as [| n IH]; intros dataCache Hmiss; [reflexivity |].
    simpl. rewrite (loadData_falsy v net name dataCache data Hmiss Hnet).
    specialize (IH (<[name := data]> dataCache)).
    destruct (calls v net name n (<[name := data]> dataCache)) as [c t] eqn:Hrest.
    simpl in *. unfold fetches in *. simpl. f_equal. apply IH.
    now rewrite dataCache_get_insert.
  - intros s page. now apply renderer_falsy.
  - intros s page. now rewrite !renderer_falsy.
Qed.

(** [data/site.json] holding [false], asked for three times from the empty
    cache, and handed to [renderSite]. *)
Lemma falsy_document_never_hits_witness :
  let net := fun _ => FetchResolves (Response true (BodyParses (JBool false))) in
  fetches (snd (calls Strict net "site" 3 ∅)) = 3%nat /\
  renderSite (Json (JBool false)) skeleton = (skeleton, Ok tt).
Proof.
  intros net.
  pose proof (falsy_document_never_hits Strict net "site" ∅ (JBool false)
                eq_refl eq_refl (or_introl eq_refl)) as (_ & _ & Hcalls & Hrender & _).
  split; [exact (Hcalls 3%nat) | exact (Hrender Site skeleton)].
Defined.

(* ===================================================================== *)
(** * 9. Properties of the scroll listener                                *)
(* ===================================================================== *)

Lemma mem_app (k : string) (l1 l2 : list string) :
  mem k (l1 ++ l2) = mem k l1 || mem k l2.
Proof. unfold mem. apply existsb_app. Qed.

Lemma classList_contains_add (c : string) (classList : list string) :
  classList_contains c (classList_add c classList) = true.
Proof.
  unfold classList_contains, classList_add.
  destruct (mem c classList) eqn:H; [exact H |].
  rewrite mem_app. simpl. rewrite String.eqb_refl. apply orb_true_r.
Qed.

Lemma classList_contains_remove (c : string) (classList : list string) :
  classList_contains c (classList_remove c classList) = false.
Proof.
  unfold classList_contains, classList_remove, mem.
  induction classList as [| x rest IH]; [reflexivity |].
  simpl. destruct (String.eqb x c) eqn:Hx; simpl; [exact IH |].
  rewrite String.eqb_sym, Hx. exact IH.
Qed.

Lemma past_threshold_spec (scrollY : Q) :
  past_threshold scrollY = true <-> (50 < scrollY)%Q.
Proof.
  unfold past_threshold. rewrite negb_true_iff.
  split.
  - intros H. apply Qnot_le_lt. intros Hle.
    apply Qle_bool_iff in Hle. congruence.
  - intros H. destruct (Qle_bool scrollY 50) eqn:Hle; [| reflexivity].
    apply Qle_bool_iff in Hle. exfalso. exact (Qlt_not_le _ _ H Hle).
Qed.

(** C9: on a page that has a navigation bar, whatever classes the bar
    carries before, the [scroll] listener completes and leaves the bar
    scrolled exactly when the position is above 50.  So position 51 sets
    the state, position 49 clears it, and position 50 clears it, every
    time. *)
Theorem on_scroll_threshold (chrome : gmap string (list string))
    (classList : list string) :
  chrome !! ".navbar" = Some classList ->
  (forall scrollY : Q,
     snd (on_scroll scrollY chrome) = Ok tt /\
     scrolled (fst (on_scroll scrollY chrome)) = past_threshold scrollY /\
     (scrolled (fst (on_scroll scrollY chrome)) = true <-> (50 < scrollY)%Q)) /\
  scrolled (fst (on_scroll 51 chrome)) = true /\
  scrolled (fst (on_scroll 49 chrome)) = false /\
  scrolled (fst (on_scroll 50 chrome)) = false.
Proof.
  intros Hbar.
  assert (Hall : forall scrollY : Q,
            snd (on_scroll scrollY chrome) = Ok tt /\
            scrolled (fst (on_scroll scrollY chrome)) = past_threshold scrollY).
  { intros scrollY. unfold on_scroll, on_classList, scrolled. rewrite Hbar.
    destruct (past_threshold scrollY); simpl; rewrite lookup_insert_eq;
      auto using classList_contains_add, classList_contains_remove. }
  split.
  - intros scrollY. destruct (Hall scrollY) as [Hok Hstate].
    repeat split; auto; rewrite Hstate; apply past_threshold_spec.
  - repeat split; apply Hall.
Qed.

(** A bar that is already scrolled, at positions 51, 49 and 50. *)
Lemma on_scroll_threshold_witness :
  let chrome : gmap string (list string) := {[".navbar" := ["navbar"; "scrolled"]]} in
  scrolled (fst (on_scroll 51 chrome)) = true /\
  scrolled (fst (on_scroll 49 chrome)) = false /\
  scrolled (fst (on_scroll 50 chrome)) = false.
Proof.
  intros chrome.
  exact (proj2 (on_scroll_threshold chrome ["navbar"; "scrolled"] eq_refl)).
Defined.

(* ===================================================================== *)
(** * 10. Properties of the bootstrapper                                   *)
(* ===================================================================== *)

Lemma section_name_eqb_spec (a b : section_name) :
  section_name_eqb a b = true <-> a = b.
Proof. destruct a, b; simpl; split; intros H; congruence. Qed.

Lemma section_name_eqb_refl (s : section_name) : section_name_eqb s s = true.
Proof. now destruct s. Qed.

Lemma set_task_same (s : section_name) (t : task) (ts : section_name -> task) :
  set_task s t ts s = t.
Proof. unfold set_task. now rewrite section_name_eqb_refl. Qed.

Lemma set_task_other (s s' : section_name) (t : task) (ts : section_name -> task) :
  s <> s' -> set_task s t ts s' = ts s'.
Proof.
  intros Hne. unfold set_task.
  destruct (section_name_eqb s s') eqn:H; [| reflexivity].
  apply section_name_eqb_spec in H. contradiction.
Qed.

Lemma all_sections (P : section_name -> bool) :
  forallb P sections = true <-> forall s, P s = true.
Proof.
  unfold sections. simpl. rewrite !andb_true_iff. split.
  - intros (? & ? & ? & ? & ? & _) []; assumption.
  - intros H. repeat split; apply H.
Qed.

Lemma fulfilled_spec (t : task) : fulfilled t = true <-> t = Settled (Ok tt).
Proof.
  destruct t as [pc | [[] | e]]; simpl; split; intros H;
    try discriminate; reflexivity.
Qed.

(** The three pieces of [loadData] that the scheduler runs one turn at a
    time make up [loadData]. *)
Lemma loadData_pieces (v : variant) (net : network) (name : string)
    (dataCache : gmap string json) :
  loadData v net name dataCache =
  match loadData_enter name dataCache with
  | (Returned data, t0) => (data, dataCache, t0)
  | (Decoding r, t0) =>
      let '(_, dataCache', t2) := loadData_decoded v name (body r) dataCache in
      (Json JNull, dataCache', t0 ++ t2)
  | (Fetching, t0) =>
      match loadData_fetched name (net (data_url name)) with
      | (Returned data, t1) => (data, dataCache, t0 ++ t1)
      | (Fetching, t1) => (Json JNull, dataCache, t0 ++ t1)
      | (Decoding r, t1) =>
          match loadData_decoded v name (body r) dataCache with
          | (Returned data, dataCache', t2) => (data, dataCache', t0 ++ t1 ++ t2)
          | (_, dataCache', t2) => (Json JNull, dataCache', t0 ++ t1 ++ t2)
          end
      end
  end.
Proof.
  unfold loadData, loadData_enter, loadData_fetched, loadData_decoded.
  destruct (truthy (dataCache_get dataCache name)); [reflexivity |].
  destruct (net (data_url name)) as [e | [[] [e | m | d]]]; simpl;
    try destruct v; reflexivity.
Qed.

Local Opaque renderer.

(** A renderer that the event loop resumes with no other in between does
    what [render] says: three turns take it from the call to its end. *)
Lemma renderer_alone (v : variant) (net : network) (s : section_name) (w : world) :
  let w' := run v net (repeat (Resume s) 3) (call s w) in
  exists trace completion,
    render v net s (dataCache w) (page w) = (dataCache w', page w', trace, completion) /\
    console w' = console w ++ trace /\
    tasks w' s = Settled completion.
Proof.
  assert (Hturn : forall ts t, set_task s t ts s = t) by (intros; apply set_task_same).
  cbv zeta.
  remember (run v net (repeat (Resume s) 3) (call s w)) as w' eqn:Hw'.
  unfold render, loadData. unfold call, loadData_enter in Hw'.
  destruct (truthy (dataCache_get (dataCache w) (filename s))).
  - simpl in Hw'. unfold resume at 1 in Hw'. simpl in Hw'. rewrite Hturn in Hw'.
    destruct (renderer _ s _ (page w)) as [page' completion].
    unfold resume in Hw'. simpl in Hw'. rewrite !Hturn in Hw'. subst w'. simpl.
    do 2 eexists. split; [reflexivity | split; [reflexivity | apply Hturn]].
  - simpl in Hw'. unfold resume at 1 in Hw'. simpl in Hw'. rewrite Hturn in Hw'.
    unfold loadData_fetched in Hw'.
    destruct (net (data_url (filename s))) as [e | [[] b]]; simpl in Hw'.
    2: { unfold resume at 1 in Hw'. simpl in Hw'. rewrite Hturn in Hw'.
         unfold loadData_decoded in Hw'.
         destruct b as [e | m | data]; try destruct v; simpl in Hw'; simpl;
           unfold resume at 1 in Hw'; simpl in Hw'; rewrite Hturn in Hw';
           destruct (renderer _ s _ (page w)) as [page' completion];
           simpl in Hw'; subst w'; simpl; do 2 eexists;
           (split; [reflexivity | split; [now rewrite <- ?app_assoc | apply Hturn]]). }
    all: simpl; unfold resume at 1 in Hw'; simpl in Hw'; rewrite Hturn in Hw';
      destruct (renderer _ s _ (page w)) as [page' completion];
      unfold resume in Hw'; simpl in Hw'; rewrite !Hturn in Hw'; subst w'; simpl;
      do 2 eexists; (split; [reflexivity | split; [now rewrite <- ?app_assoc | apply Hturn]]).
Qed.

Local Transparent renderer.

Lemma call_barrier (s : section_name) (w : world) :
  all w = Pending /\ wired w = false ->
  all (call s w) = Pending /\ wired (call s w) = false.
Proof.
  unfold call. destruct (loadData_enter (filename s) (dataCache w)). auto.
Qed.

Lemma init_barrier (page : gmap string content) (chrome : gmap string (list string)) :
  barrier (init page chrome).
Proof.
  assert (H : all (init page chrome) = Pending /\ wired (init page chrome) = false).
  { unfold init, sections. simpl. repeat apply call_barrier. auto. }
  destruct H as [Hall Hwired]. split.
  - rewrite Hall. discriminate.
  - rewrite Hwired. discriminate.
Qed.

Lemma resume_barrier (v : variant) (net : network) (s : section_name) (w w' : world) :
  barrier w -> resume v net s w = Some w' ->
  barrier w' /\ wired w' = wired w.
Proof.
  intros [Hjoin Hwired] Hstep. unfold resume in Hstep.
  assert (Hpending : settled (tasks w s) = false -> all w <> Fulfilled).
  { intros Hs Hf. rewrite (Hjoin Hf s) in Hs. discriminate. }
  destruct (tasks w s) as [[| r | data] | c] eqn:Htask; [| | | discriminate].
  - destruct (loadData_fetched _ _) as [pc lines].
    injection Hstep as <-. simpl. split; [| reflexivity]. split; simpl.
    + intros Hf. now destruct (Hpending eq_refl).
    + intros Hw. now destruct (Hpending eq_refl (Hwired Hw)).
  - destruct (loadData_decoded _ _ _ _) as [[pc c'] lines].
    injection Hstep as <-. simpl. split; [| reflexivity]. split; simpl.
    + intros Hf. now destruct (Hpending eq_refl).
    + intros Hw. now destruct (Hpending eq_refl (Hwired Hw)).
  - destruct (renderer v s data (page w)) as [page' completion].
    injection Hstep as <-. simpl. split; [| reflexivity]. split; simpl.
    + unfold react. destruct (all w) eqn:Hall.
      * destruct completion as [[] | e]; [| discriminate].
        destruct (forallb _ sections) eqn:Hfor; [| discriminate].
        intros _ s'. rewrite all_sections in Hfor.
        apply fulfilled_spec, Hfor.
      * now destruct (Hpending eq_refl).
      * discriminate.
    + intros Hw. now destruct (Hpending eq_refl (Hwired Hw)).
Qed.

Lemma continue_barrier (w w' : world) :
  barrier w -> continue w = Some w' ->
  barrier w' /\ (wired w = false -> wired w' = true -> all w = Fulfilled).
Proof.
  intros [Hjoin Hwired] Hstep. unfold continue in Hstep.
  destruct (init_done w); [discriminate |].
  destruct (all w) eqn:Hall; [discriminate | |].
  - destruct (initNavigation (chrome w)); injection Hstep as <-;
      (split; [split |]); simpl; auto.
  - injection Hstep as <-. (split; [split |]); simpl; auto.
Qed.

Lemma step_barrier (v : variant) (net : network) (t : turn) (w w' : world) :
  barrier w -> step v net t w = Some w' -> barrier w'.
Proof.
  destruct t as [s |]; simpl; intros Hb Hstep.
  - now destruct (resume_barrier v net s w w' Hb Hstep).
  - now destruct (continue_barrier w w' Hb Hstep).
Qed.

Lemma run_barrier (v : variant) (net : network) (schedule : list turn) (w : world) :
  barrier w -> barrier (run v net schedule w).
Proof.
  revert w. induction schedule as [| t rest IH]; intros w Hb; [exact Hb |].
  simpl. destruct (step v net t w) as [w' |] eqn:Hstep.
  - apply IH. eapply step_barrier; eauto.
  - now apply IH.
Qed.

(** C8: in both copies of the script, however the event loop orders the
    turns of the five renderers and of [init], in every state it reaches
    in which the listeners of [initNavigation] are installed all five
    renderers have settled (each of them fulfilled); and the turn that
    installs the listeners is a turn of [init], taken in a state where none
    of the five is pending. *)
Theorem chrome_wired_after_renderers (v : variant) (net : network)
    (page : gmap string content) (chrome : gmap string (list string))
    (schedule : list turn) :
  let w := run v net schedule (init page chrome) in
  (wired w = true -> forall s, tasks w s = Settled (Ok tt)) /\
  (forall t w', step v net t w = Some w' -> wired w = false -> wired w' = true ->
     t = Continue /\ forall s, tasks w s = Settled (Ok tt)).
Proof.
  intros w.
  assert (Hb : barrier w) by apply run_barrier, init_barrier.
  split.
  - intros Hw. destruct Hb as [Hjoin Hwired]. auto.
  - intros [s |] w' Hstep Hoff Hon; simpl in Hstep.
    + destruct (resume_barrier v net s w w' Hb Hstep) as [_ Hsame]. congruence.
    + split; [reflexivity |].
      destruct (continue_barrier w w' Hb Hstep) as [_ Hfull].
      destruct Hb as [Hjoin _]. auto.
Qed.

(** The renderers finish in the order contact, site, menu, about,
    services; then [init] goes on. *)
Lemma chrome_wired_after_renderers_witness :
  let schedule :=
    [Resume Contact; Resume Site; Resume Contact; Resume Menu; Resume Contact;
     Resume Site; Resume Site; Resume Menu; Resume About; Resume Menu;
     Resume About; Resume Services; Resume About; Resume Services;
     Resume Services; Continue] in
  let w := run Defensive plain_net schedule (init skeleton plain_chrome) in
  wired w = true /\ forall s, tasks w s = Settled (Ok tt).
Proof.
  intros schedule w.
  assert (Hw : wired w = true) by (vm_compute; reflexivity).
  split; [exact Hw |].
  exact (proj1 (chrome_wired_after_renderers Defensive plain_net skeleton
                  plain_chrome schedule) Hw).
Defined.

(* ===================================================================== *)
(** * 11. Each renderer keeps to its own part of the page                 *)
(* ===================================================================== *)

Section Confined.

Context (T : list string).

Lemma confined_ret {A : Type} (a : A) : confined T (mret a : dom_action A).
Proof. split; [reflexivity | intros d1 d2 H; now split]. Qed.

Lemma confined_lift {A : Type} (r : result A) : confined T (lift r).
Proof. split; [reflexivity | intros d1 d2 H; now split]. Qed.

Lemma confined_bind {A B : Type} (m : dom_action A) (k : A -> dom_action B) :
  confined T m -> (forall a, confined T (k a)) -> confined T (m ≫= k).
Proof.
  intros [Hframe Hlocal] Hk. split.
  - intros d key Hout. specialize (Hframe d key Hout).
    unfold mbind, dom_action_bind. destruct (m d) as [d' [a | e]]; simpl in *.
    + destruct (Hk a) as [Hkframe _]. now rewrite Hkframe.
    + exact Hframe.
  - intros d1 d2 Hagree. destruct (Hlocal d1 d2 Hagree) as [Hres Hnext].
    unfold mbind, dom_action_bind.
    destruct (m d1) as [d1' [a1 | e1]], (m d2) as [d2' [a2 | e2]];
      simpl in *; try discriminate Hres.
    + injection Hres as <-. destruct (Hk a1) as [_ Hklocal]. now apply Hklocal.
    + injection Hres as <-. split; [reflexivity | assumption].
Qed.

Lemma confined_throw_bind {A B : Type} (e : js_error) (k : A -> dom_action B) :
  confined T (lift (Throw e) ≫= k).
Proof. split; [reflexivity | intros d1 d2 H; now split]. Qed.

Lemma confined_lift_bind {A B : Type} (r : result A) (k : A -> dom_action B) :
  (forall a, confined T (k a)) -> confined T (lift r ≫= k).
Proof. intros Hk. apply confined_bind; [apply confined_lift | exact Hk]. Qed.

Lemma confined_write (sel : string) (c : content) :
  In sel T -> confined T (write sel c).
Proof.
  intros Hin. split.
  - intros d key Hout. simpl. apply lookup_insert_ne. intros ->. contradiction.
  - intros d1 d2 Hagree. split; [reflexivity |].
    intros key Hkey. simpl. destruct (decide (sel = key)) as [-> | Hne].
    + now rewrite !lookup_insert_eq.
    + rewrite !lookup_insert_ne by assumption. now apply Hagree.
Qed.

Lemma confined_querySelector_bind {B : Type} (sel : string)
    (k : option string -> dom_action B) :
  In sel T -> confined T (k None) -> confined T (k (Some sel)) ->
  confined T (querySelector sel ≫= k).
Proof.
  intros Hin [HNframe HNlocal] [HSframe HSlocal]. split.
  - intros d key Hout. unfold mbind, dom_action_bind, querySelector.
    destruct (d !! sel); auto.
  - intros d1 d2 Hagree. unfold mbind, dom_action_bind, querySelector.
    rewrite (Hagree sel Hin). destruct (d2 !! sel); auto.
Qed.

Lemma confined_querySelector_in_bind {B : Type} (parent : option string)
    (sel : string) (k : option string -> dom_action B) :
  (forall p, parent = Some p ->
     In (p +:+ " " +:+ sel) T /\ confined T (k None) /\
     confined T (k (Some (p +:+ " " +:+ sel)))) ->
  confined T (querySelector_in parent sel ≫= k).
Proof.
  intros H. destruct parent as [p |]; simpl.
  - destruct (H p eq_refl) as (Hin & HN & HS).
    now apply confined_querySelector_bind.
  - apply confined_throw_bind.
Qed.

Lemma confined_set_textContent (el : option string) (v : value) :
  (forall sel, el = Some sel -> In sel T) -> confined T (set_textContent el v).
Proof.
  intros H. destruct el as [sel |]; simpl.
  - apply confined_lift_bind. intros s. apply confined_write. now apply H.
  - apply confined_lift.
Qed.

Lemma confined_set_innerHTML (el : option string) (markup : string) :
  (forall sel, el = Some sel -> In sel T) -> confined T (set_innerHTML el markup).
Proof.
  intros H. destruct el as [sel |]; simpl.
  - apply confined_write. now apply H.
  - apply confined_lift.
Qed.

End Confined.

(** Membership in a list of selectors that is written out. *)
Ltac listed := simpl; repeat first [left; reflexivity | right].

(** Walks through a renderer, one statement at a time. *)
Ltac confine_step :=
  lazymatch goal with
  | |- confined _ (mret _) => apply confined_ret
  | |- confined _ (lift _) => apply confined_lift
  | |- confined _ (set_textContent None _) => apply confined_lift
  | |- confined _ (set_innerHTML None _) => apply confined_lift
  | |- confined _ (set_textContent (Some _) _) =>
      apply confined_set_textContent; intros ? [= <-]; listed
  | |- confined _ (set_innerHTML (Some _) _) =>
      apply confined_set_innerHTML; intros ? [= <-]; listed
  | |- confined _ (querySelector _ ≫= _) =>
      apply confined_querySelector_bind; [listed | |]
  | |- confined _ (querySelector_in None _ ≫= _) => apply confined_throw_bind
  | |- confined _ (querySelector_in (Some _) _ ≫= _) =>
      apply confined_querySelector_in_bind; intros ? [= <-]; split; [listed | split]
  | |- confined _ (lift _ ≫= _) => apply confined_lift_bind; intros ?
  | |- confined _ (_ ≫= _) => apply confined_bind; [| intros ?]
  end.

Ltac confine := repeat confine_step.

Lemma renderSite_confined (site : value) : confined (targets Site) (renderSite site).
Proof. unfold renderSite. destruct (negb (truthy site)); confine. Qed.

Lemma renderer_confined (v : variant) (s : section_name) (data : value) :
  confined (targets s) (renderer v s data).
Proof.
  destruct v, s; simpl; try apply renderSite_confined;
    unfold Strict.renderAbout, Strict.renderMenu, Strict.renderServices,
      Strict.renderContact, Defensive.renderAbout, Defensive.renderMenu,
      Defensive.renderServices, Defensive.renderContact;
    destruct (negb (truthy data)); confine.
Qed.

Lemma targets_apart (s s' : section_name) (k : string) :
  s <> s' -> In k (targets s) -> ~ In k (targets s').
Proof.
  intros Hne Hin Hin'.
  destruct s, s'; try contradiction; simpl in Hin, Hin';
    repeat (destruct Hin as [<- | Hin]; [| try contradiction]);
    repeat (destruct Hin' as [Hin' | Hin']; [discriminate Hin' | try contradiction]).
Qed.

Lemma same_view_refl (s : section_name) (w : world) : same_view s w w.
Proof. split; [reflexivity | intros k _; reflexivity]. Qed.

Lemma same_view_trans (s : section_name) (w1 w2 w3 : world) :
  same_view s w1 w2 -> same_view s w2 w3 -> same_view s w1 w3.
Proof.
  intros [Ht1 Hp1] [Ht2 Hp2]. split; [congruence |].
  intros k Hk. rewrite (Hp1 k Hk). now apply Hp2.
Qed.

(** A turn of another renderer, or of [init], changes nothing of it. *)
Lemma step_other_view (v : variant) (net : network) (s : section_name) (t : turn)
    (w w' : world) :
  turn_of s t = false -> step v net t w = Some w' -> same_view s w' w.
Proof.
  destruct t as [s' |]; simpl; intros Hother Hstep.
  - assert (Hne : s' <> s).
    { intros ->. now rewrite section_name_eqb_refl in Hother. }
    unfold resume in Hstep.
    destruct (tasks w s') as [[| r | data] | c]; [| | | discriminate].
    + destruct (loadData_fetched _ _) as [pc lines]. injection Hstep as <-.
      split; simpl; [now apply set_task_other | intros k _; reflexivity].
    + destruct (loadData_decoded _ _ _ _) as [[pc c'] lines]. injection Hstep as <-.
      split; simpl; [now apply set_task_other | intros k _; reflexivity].
    + destruct (renderer v s' data (page w)) as [page' completion] eqn:Hr.
      injection Hstep as <-.
      split; simpl; [now apply set_task_other |].
      intros k Hk. destruct (renderer_confined v s' data) as [Hframe _].
      specialize (Hframe (page w) k). rewrite Hr in Hframe. apply Hframe.
      intros Hk'. exact (targets_apart s s' k (not_eq_sym Hne) Hk Hk').
  - unfold continue in Hstep. destruct (init_done w); [discriminate |].
    destruct (all w); [discriminate | |].
    + destruct (initNavigation (chrome w)); injection Hstep as <-;
        (split; simpl; [reflexivity | intros k _; reflexivity]).
    + injection Hstep as <-. split; simpl; [reflexivity | intros k _; reflexivity].
Qed.

(** Its own turn takes it from where it stands, by what its elements
    hold. *)
Lemma resume_same_view (v : variant) (net : network) (s : section_name)
    (w1 w2 : world) :
  same_view s w1 w2 ->
  match resume v net s w1, resume v net s w2 with
  | Some w1', Some w2' => same_view s w1' w2'
  | None, None => True
  | _, _ => False
  end.
Proof.
  intros [Htask Hpage]. unfold resume. rewrite <- Htask.
  destruct (tasks w1 s) as [[| r | data] | c]; [| | | exact I].
  - destruct (loadData_fetched _ _) as [pc lines].
    split; simpl; [now rewrite !set_task_same | exact Hpage].
  - destruct (loadData_decoded v _ _ (dataCache w1)) as [[pc1 c1] lines1] eqn:H1.
    destruct (loadData_decoded v _ _ (dataCache w2)) as [[pc2 c2] lines2] eqn:H2.
    split; simpl; [| exact Hpage]. rewrite !set_task_same. f_equal.
    unfold loadData_decoded in H1, H2.
    destruct (body r); try destruct v; congruence.
  - destruct (renderer_confined v s data) as [_ Hlocal].
    destruct (Hlocal (page w1) (page w2) Hpage) as [Hres Hnext].
    destruct (renderer v s data (page w1)) as [p1 c1].
    destruct (renderer v s data (page w2)) as [p2 c2].
    simpl in *. subst c2. split; simpl; [now rewrite !set_task_same | exact Hnext].
Qed.

(** However the turns of the five renderers and of [init] are ordered, the
    rendering of a section is what the turns of its own renderer alone
    make it. *)
Lemma run_same_view (v : variant) (net : network) (s : section_name)
    (schedule : list turn) (w1 w2 : world) :
  same_view s w1 w2 ->
  same_view s (run v net schedule w1)
              (run v net (List.filter (turn_of s) schedule) w2).
Proof.
  revert w1 w2. induction schedule as [| t rest IH]; intros w1 w2 Hview;
    [exact Hview |].
  simpl. destruct (turn_of s t) eqn:Hturn.
  - destruct t as [s' |]; [| discriminate]. simpl in Hturn.
    apply section_name_eqb_spec in Hturn. subst s'. simpl.
    pose proof (resume_same_view v net s w1 w2 Hview) as Hboth.
    destruct (resume v net s w1), (resume v net s w2); try contradiction;
      now apply IH.
  - destruct (step v net t w1) as [w1' |] eqn:Hstep; apply IH; [| exact Hview].
    eapply same_view_trans; [| exact Hview].
    eapply step_other_view; eauto.
Qed.

(** C4: in both copies of the script and for each of the five sections,
    when [loadData] comes back with [null] the renderer returns normally
    and the page is what it was, whether the renderer is awaited on its own
    or resumed by the event loop among the others.  A renderer that has not
    settled can always take its turn, wherever the other four stand; and
    what a section ends up showing, and how its renderer ends, is what the
    turns of its own renderer alone make of the page, whatever happens to
    the other sections. *)
Theorem notfound_leaves_page (v : variant) (net : network) (s : section_name) :
  (forall dataCache page,
     fst (fst (loadData v net (filename s) dataCache)) = Json JNull ->
     exists dataCache' trace,
       render v net s dataCache page = (dataCache', page, trace, Ok tt)) /\
  (forall w w',
     tasks w s = Loading (Returned (Json JNull)) ->
     resume v net s w = Some w' ->
     page w' = page w /\ tasks w' s = Settled (Ok tt)) /\
  (forall w, settled (tasks w s) = false -> exists w', resume v net s w = Some w') /\
  (forall page chrome schedule,
     same_view s (run v net schedule (init page chrome))
                 (run v net (List.filter (turn_of s) schedule) (init page chrome))).
Proof.
  split; [| split; [| split]].
  - intros dataCache page Hnull. unfold render.
    destruct (loadData v net (filename s) dataCache) as [[data c'] trace].
    simpl in Hnull. subst data. rewrite renderer_falsy by reflexivity. eauto.
  - intros w w' Htask Hstep. unfold resume in Hstep.
    rewrite Htask, renderer_falsy in Hstep by reflexivity.
    injection Hstep as <-. simpl. split; [reflexivity | apply set_task_same].
  - intros w Hpending. unfold resume.
    destruct (tasks w s) as [[| r | data] | c]; [| | | discriminate].
    + destruct (loadData_fetched _ _). eauto.
    + destruct (loadData_decoded _ _ _ _) as [[? ?] ?]. eauto.
    + destruct (renderer _ _ _ _). eauto.
  - intros page chrome schedule. apply run_same_view, same_view_refl.
Qed.

(** [data/about.json] is missing (status 404): the renderer returns
    normally and the page stays as it was. *)
Lemma notfound_leaves_page_witness :
  let net := fun _ => FetchResolves (Response false (BodyFails (Error "no body"))) in
  fst (fst (loadData Defensive net "about" ∅)) = Json JNull /\
  snd (render Defensive net About ∅ skeleton) = Ok tt /\
  snd (fst (fst (render Defensive net About ∅ skeleton))) = skeleton.
Proof.
  intros net.
  assert (Hnull : fst (fst (loadData Defensive net "about" ∅)) = Json JNull)
    by reflexivity.
  split; [exact Hnull |].
  destruct (proj1 (notfound_leaves_page Defensive net About) ∅ skeleton Hnull)
    as (dataCache' & trace & ->).
  split; reflexivity.
Defined.

(* ===================================================================== *)
(** * 12. The defensive renderers and what a document leaves out          *)
(* ===================================================================== *)

Lemma assoc_obj_set (k k' : string) (x : json) (props : list (string * json)) :
  assoc k' (obj_set k x props) = if String.eqb k' k then Some x else assoc k' props.
Proof.
  induction props as [| [k0 y] rest IH]; simpl.
  - destruct (String.eqb k' k); reflexivity.
  - destruct (String.eqb k k0) eqn:Hk0; simpl.
    + apply String.eqb_eq in Hk0. subst k0.
      destruct (String.eqb k' k); reflexivity.
    + destruct (String.eqb k' k0) eqn:Hk'; [| exact IH].
      apply String.eqb_eq in Hk'. subst k0.
      now rewrite String.eqb_sym, Hk0.
Qed.

Lemma get_obj_set (k k' : string) (x : json) (props : list (string * json)) :
  get (JObj (obj_set k x props)) k' =
  if String.eqb k' k then Ok (Json x) else get (JObj props) k'.
Proof. simpl. rewrite assoc_obj_set. now destruct (String.eqb k' k). Qed.

(** Reading a property of anything truthy does not throw. *)
Lemma get_truthy (doc : value) (k : string) :
  truthy doc = true -> exists x, get doc k = Ok x.
Proof.
  destruct doc as [| f | [| b | n | s | items | props]]; simpl;
    try discriminate; intros _.
  - destruct (String.eqb k "name"); eauto.
  - eauto.
  - eauto.
  - destruct (String.eqb k "length"); eauto.
  - destruct (String.eqb k "length"); eauto.
  - destruct (assoc k props); eauto.
Qed.

Lemma group_not_array (doc x : value) (k : string) :
  get doc k = Ok x -> Array_isArray x = false -> Defensive.group doc k = Ok [].
Proof. intros Hget Hno. unfold Defensive.group. rewrite Hget. simpl. now rewrite Hno. Qed.

(** Replacing a property that holds no array by [[]] changes no group. *)
Lemma group_obj_set (k k' : string) (props : list (string * json)) :
  holds_array props k = false ->
  Defensive.group (JObj (obj_set k (JArr []) props)) k' =
  Defensive.group (JObj props) k'.
Proof.
  intros Hno. unfold Defensive.group. rewrite get_obj_set.
  destruct (String.eqb k' k) eqn:Hk; [| reflexivity].
  apply String.eqb_eq in Hk. subst k'. unfold holds_array in Hno. simpl.
  destruct (assoc k props) as [[| | | | |] |]; try discriminate; try reflexivity.
  unfold inherited. now destruct (mem k Object_prototype).
Qed.

Ltac unfold_defensive :=
  unfold Defensive.renderAbout, Defensive.renderMenu, Defensive.renderServices,
    Defensive.renderContact, Defensive.paragraphsHtml, Defensive.featuresBlock,
    Defensive.categoriesHtml, Defensive.servicesHtml, Defensive.contactHtml,
    Defensive.cta, Defensive.phoneLink, Defensive.detailItems,
    Defensive.details_of, Defensive.category, Defensive.feature, Defensive.dish,
    Defensive.service_card, Defensive.contact_item, Defensive.show.

Ltac nothing :=
  intros doc x Hget Hno; unfold_defensive;
  rewrite (group_not_array doc x _ Hget Hno); reflexivity.

Ltac empty_group :=
  intros props page Hno; unfold_defensive;
  rewrite ?group_obj_set by exact Hno; rewrite ?get_obj_set; reflexivity.

Lemma paragraphs_nothing : renders_nothing "paragraphs" Defensive.paragraphsHtml.
Proof. nothing. Qed.

Lemma features_nothing : renders_nothing "features" Defensive.featuresBlock.
Proof. nothing. Qed.

Lemma categories_nothing : renders_nothing "categories" Defensive.categoriesHtml.
Proof. nothing. Qed.

Lemma services_nothing : renders_nothing "items" Defensive.servicesHtml.
Proof. nothing. Qed.

Lemma about_paragraphs_empty : as_if_empty "paragraphs" Defensive.renderAbout.
Proof. empty_group. Qed.

Lemma about_features_empty : as_if_empty "features" Defensive.renderAbout.
Proof. empty_group. Qed.

Lemma menu_categories_empty : as_if_empty "categories" Defensive.renderMenu.
Proof. empty_group. Qed.

Lemma services_items_empty : as_if_empty "items" Defensive.renderServices.
Proof. empty_group. Qed.

(** A category whose [items] is missing or holds no array is a heading
    over an empty list. *)
Lemma category_no_items (c : json) (x : value) :
  get c "items" = Ok x -> Array_isArray x = false ->
  Defensive.category c =
    (name ← Defensive.show c "name" "Menu"; Ok (category_markup 16 name "")).
Proof.
  intros Hget Hno. unfold Defensive.category.
  rewrite (group_not_array c x _ Hget Hno). reflexivity.
Qed.

Lemma category_items_empty (props : list (string * json)) :
  holds_array props "items" = false ->
  Defensive.category (JObj props) =
  Defensive.category (JObj (obj_set "items" (JArr []) props)).
Proof.
  intros Hno. unfold_defensive.
  rewrite ?group_obj_set by exact Hno. rewrite ?get_obj_set. reflexivity.
Qed.

Lemma details_of_no_details (props : list (string * json)) :
  no_details props = true ->
  exists details : value,
    Defensive.details_of (JObj props) = Ok details /\
    Object_values details = Ok [] /\
    get details "phone" = Ok Undefined.
Proof.
  unfold no_details, Defensive.details_of. simpl.
  destruct (assoc "details" props) as [[| [] | n | s | items | dprops] |];
    simpl; try discriminate; intros Hno;
    try (exists (Json (JObj [])); repeat split; reflexivity).
  - exists (Json (JBool true)). repeat split; reflexivity.
  - unfold or_else. simpl. destruct (n =? 0)%Z; simpl.
    + exists (Json (JObj [])). repeat split; reflexivity.
    + exists (Json (JNum n)). repeat split; reflexivity.
  - apply String.eqb_eq in Hno. subst s.
    exists (Json (JObj [])). repeat split; reflexivity.
Qed.

Lemma contact_no_details (props : list (string * json)) :
  no_details props = true ->
  Defensive.detailItems (JObj props) = Ok [] /\
  Defensive.contactHtml (JObj props) = Ok "" /\
  Defensive.phoneLink (JObj props) = Ok (Json (JStr "#contact")).
Proof.
  intros Hno. destruct (details_of_no_details props Hno) as (d & Hd & Hv & Hp).
  unfold Defensive.contactHtml, Defensive.detailItems, Defensive.phoneLink.
  rewrite Hd. simpl. rewrite Hv, Hp. repeat split; reflexivity.
Qed.

Lemma contact_details_empty (props : list (string * json)) (page : gmap string content) :
  no_details props = true ->
  Defensive.renderContact (JObj props) page =
  Defensive.renderContact (JObj (obj_set "details" (JObj []) props)) page.
Proof.
  intros Hno. destruct (contact_no_details props Hno) as (_ & Hhtml & Hlink).
  unfold Defensive.renderContact, Defensive.cta. rewrite Hhtml, Hlink.
  assert (Hhtml' : Defensive.contactHtml (JObj (obj_set "details" (JObj []) props)) = Ok "").
  { unfold_defensive. rewrite get_obj_set. reflexivity. }
  assert (Hlink' : Defensive.phoneLink (JObj (obj_set "details" (JObj []) props))
                   = Ok (Json (JStr "#contact"))).
  { unfold_defensive. rewrite get_obj_set. reflexivity. }
  rewrite Hhtml', Hlink'. unfold Defensive.show. rewrite ?get_obj_set. reflexivity.
Qed.

(** C3, as amended: in the defensive copy, each of [about.paragraphs],
    [about.features], [menu.categories], the [items] of a category that is
    an object, and [services.items] renders no item when it is missing or
    holds anything but an array, and its renderer does to the page exactly
    what it does when the property holds the empty array.
    [contact.details] renders no entry when it is missing or holds [null],
    a boolean, a number or the empty string, and then [renderContact] does
    what it does for [{}]. *)
Theorem defensive_group_defaults :
  (renders_nothing "paragraphs" Defensive.paragraphsHtml /\
   as_if_empty "paragraphs" Defensive.renderAbout) /\
  (renders_nothing "features" Defensive.featuresBlock /\
   as_if_empty "features" Defensive.renderAbout) /\
  (renders_nothing "categories" Defensive.categoriesHtml /\
   as_if_empty "categories" Defensive.renderMenu) /\
  ((forall (c : json) (x : value),
      get c "items" = Ok x -> Array_isArray x = false ->
      Defensive.category c =
        (name ← Defensive.show c "name" "Menu"; Ok (category_markup 16 name ""))) /\
   (forall props,
      holds_array props "items" = false ->
      Defensive.category (JObj props) =
      Defensive.category (JObj (obj_set "items" (JArr []) props)))) /\
  (renders_nothing "items" Defensive.servicesHtml /\
   as_if_empty "items" Defensive.renderServices) /\
  (forall props,
     no_details props = true ->
     Defensive.detailItems (JObj props) = Ok [] /\
     Defensive.contactHtml (JObj props) = Ok "" /\
     forall page,
       Defensive.renderContact (JObj props) page =
       Defensive.renderContact (JObj (obj_set "details" (JObj []) props)) page).
Proof.
  split; [exact (conj paragraphs_nothing about_paragraphs_empty) |].
  split; [exact (conj features_nothing about_features_empty) |].
  split; [exact (conj categories_nothing menu_categories_empty) |].
  split; [exact (conj category_no_items category_items_empty) |].
  split; [exact (conj services_nothing services_items_empty) |].
  intros props Hno.
  destruct (contact_no_details props Hno) as (Hitems & Hhtml & _).
  repeat split; auto using contact_details_empty.
Qed.

(** An about document with one paragraph and no [features]: the section
    gets its heading and the one paragraph, no feature, and the renderer
    returns normally. *)
Lemma defensive_group_defaults_witness :
  let about := JObj [("paragraphs", JArr [JStr "Home cooking."])] in
  Defensive.featuresBlock about = Ok "" /\
  Defensive.renderAbout about skeleton =
    (<["#about .about-text" := Html (about_markup "<p>Home cooking.</p>" "")]>
       (<["#about h2" := Text "About Us"]> skeleton),
     Ok tt).
Proof.
  intros about.
  destruct defensive_group_defaults as (_ & (Hnothing & Hempty) & _).
  split.
  - exact (Hnothing about Undefined eq_refl eq_refl).
  - unfold about.
    rewrite (Hempty [("paragraphs", JArr [JStr "Home cooking."])] skeleton eq_refl).
    vm_compute. reflexivity.
Defined.

(** C3 as it is written fails in the defensive copy for [contact.details]:
    a [details] that holds what it is meant to hold, a mapping with a
    [phone] entry, is not a sequence, and its entry is rendered. *)
Lemma details_mapping_renders_entries :
  let details :=
    JObj [("phone",
           JObj [("icon", JStr "T"); ("label", JStr "Phone");
                 ("value", JStr "123"); ("link", JStr "tel:123")])] in
  let contact := JObj [("details", details)] in
  Array_isArray details = false /\
  Defensive.detailItems contact =
    Ok [JObj [("icon", JStr "T"); ("label", JStr "Phone");
              ("value", JStr "123"); ("link", JStr "tel:123")]] /\
  Defensive.contactHtml contact =
    Ok (contact_markup "T" "Phone" (link_markup "tel:123" "123")) /\
  Defensive.contactHtml contact <> Ok "".
Proof.
  intros details contact. repeat split.
  intros H. vm_compute in H. discriminate H.
Qed.

(** Nor is a [details] that holds a string taken for an empty mapping:
    [Object.values] lists its characters, and each is rendered as an
    entry. *)
Lemma details_string_renders_entries :
  let contact := JObj [("details", JStr "ab")] in
  Defensive.detailItems contact = Ok [JStr "a"; JStr "b"] /\
  Defensive.contactHtml contact <> Ok "".
Proof.
  intros contact. split; [reflexivity |].
  intros H. vm_compute in H. discriminate H.
Qed.

(** In [src/js/app.js] nothing stands in for a missing group: an about
    document without [features] gets its heading written, then the
    renderer throws. *)
Lemma strict_missing_group_throws :
  let about := JObj [("title", JStr "About"); ("paragraphs", JArr [JStr "Home cooking."])] in
  Strict.renderAbout about skeleton =
    (<["#about h2" := Text "About"]> skeleton,
     Throw (TypeError "Cannot read properties of undefined (reading 'map')")).
Proof. vm_compute. reflexivity. Qed.

Lemma get_absent (props : list (string * json)) (k : string) :
  assoc k props = None -> mem k Object_prototype = false ->
  get (JObj props) k = Ok Undefined.
Proof. intros Hk Hproto. simpl. rewrite Hk. unfold inherited. now rewrite Hproto. Qed.

Ltac blank :=
  intros props Hk; unfold_defensive; unfold Defensive.group;
  rewrite ?get_obj_set; rewrite (get_absent _ _ Hk eq_refl); reflexivity.

Lemma show_absent (item : value) (k fallback : string) :
  get item k = Ok Undefined -> Defensive.show item k fallback = Ok fallback.
Proof. intros H. unfold Defensive.show. now rewrite H. Qed.

Lemma show_null (item : value) (k fallback : string) :
  get item k = Ok (Json JNull) -> Defensive.show item k fallback = Ok fallback.
Proof. intros H. unfold Defensive.show. now rewrite H. Qed.

(** C5, as amended: in the defensive copy, a display field that is absent
    from an item (or holds [null]) fills its hole with the fallback written
    next to it in the template, which is the empty string for the [icon]
    and [text] of a feature, the [name] and [description] of a dish, the
    [icon], [name] and [description] of a service, the [icon], [label] and
    [value] of a contact entry and the [cta_text] of the contact document:
    each of these items renders without the field as it renders with the
    field holding the empty string.  The [name] of a category falls back
    to [Menu] instead.  The markup of an item with no field at all has
    empty holes and contains neither [undefined] nor [null]. *)
Theorem defensive_field_defaults :
  (forall (item : value) (k fallback : string),
     get item k = Ok Undefined \/ get item k = Ok (Json JNull) ->
     Defensive.show item k fallback = Ok fallback) /\
  (blank_when_absent "icon" Defensive.feature /\
   blank_when_absent "text" Defensive.feature) /\
  (blank_when_absent "name" Defensive.dish /\
   blank_when_absent "description" Defensive.dish) /\
  (blank_when_absent "icon" Defensive.service_card /\
   blank_when_absent "name" Defensive.service_card /\
   blank_when_absent "description" Defensive.service_card) /\
  (blank_when_absent "icon" Defensive.contact_item /\
   blank_when_absent "label" Defensive.contact_item /\
   blank_when_absent "value" Defensive.contact_item) /\
  (forall props,
     assoc "cta_text" props = None ->
     Defensive.cta (JObj props) =
     Defensive.cta (JObj (obj_set "cta_text" (JStr "") props))) /\
  (forall props,
     assoc "name" props = None ->
     Defensive.category (JObj props) =
     Defensive.category (JObj (obj_set "name" (JStr "Menu") props))) /\
  (Defensive.feature (JObj []) = Ok (feature_markup "" "") /\
   Defensive.dish (JObj []) = Ok (dish_markup 28 "" "") /\
   Defensive.service_card (JObj []) = Ok (service_markup "" "" "") /\
   Defensive.contact_item (JObj []) = Ok (contact_markup "" "" "") /\
   Defensive.cta (JObj []) = Ok (cta_markup "" "#contact" "Contact Us") /\
   Defensive.category (JObj []) = Ok (category_markup 16 "Menu" "")) /\
  forall markup,
    In markup [feature_markup "" ""; dish_markup 28 "" ""; service_markup "" "" "";
               contact_markup "" "" ""; cta_markup "" "#contact" "Contact Us";
               category_markup 16 "Menu" ""] ->
    occurs "undefined" markup = false /\ occurs "null" markup = false.
Proof.
  split.
  { intros item k fallback [H | H]; [now apply show_absent | now apply show_null]. }
  split; [split; blank |].
  split; [split; blank |].
  split; [repeat split; blank |].
  split; [repeat split; blank |].
  split; [blank |].
  split; [blank |].
  split; [repeat split |].
  intros markup Hin. simpl in Hin.
  repeat (destruct Hin as [<- | Hin]; [split; vm_compute; reflexivity |]).
  destruct Hin.
Qed.

(** A service that has a name and nothing else. *)
Lemma defensive_field_defaults_witness :
  Defensive.service_card (JObj [("name", JStr "Catering")]) =
    Ok (service_markup "" "Catering" "") /\
  occurs "undefined" (service_markup "" "" "") = false.
Proof.
  destruct defensive_field_defaults
    as (_ & _ & _ & (Hicon & _ & Hdescription) & _ & _ & _ & _ & Hclean).
  split.
  - rewrite (Hicon [("name", JStr "Catering")] eq_refl).
    rewrite (Hdescription (obj_set "icon" (JStr "") [("name", JStr "Catering")]) eq_refl).
    reflexivity.
  - apply (Hclean (service_markup "" "" "")). simpl. auto.
Defined.

(** C5 as it is written fails in the defensive copy for the name of a
    category: when it is absent the heading reads [Menu], it is not
    empty. *)
Lemma category_name_falls_back_to_menu :
  assoc "name" [("items", JArr [])] = None /\
  Defensive.show (JObj [("items", JArr [])]) "name" "Menu" = Ok "Menu" /\
  Defensive.category (JObj [("items", JArr [])]) = Ok (category_markup 16 "Menu" "") /\
  category_markup 16 "Menu" "" <> category_markup 16 "" "".
Proof.
  repeat split. intros H. vm_compute in H. discriminate H.
Qed.

(** In [src/js/app.js] an absent field is printed as it is read. *)
Lemma strict_absent_field_prints_undefined :
  Strict.service_card (JObj [("name", JStr "Catering")]) =
    Ok (service_markup "undefined" "Catering" "undefined").
Proof. reflexivity. Qed.









(** An entry of [details] that is [null] beside the telephone: the
    renderer of the defensive copy throws at the entry, and [.contact-cta]
    stays as the page had it. *)
Lemma null_entry_beside_phone :
  let contact :=
    JObj [("details", JObj [("phone", JObj [("link", JStr "tel:1")]); ("fax", JNull)])] in
  Defensive.phoneLink contact = Ok (Json (JStr "tel:1")) /\
  snd (Defensive.renderContact contact skeleton) =
    Throw (TypeError "Cannot read properties of null (reading 'icon')") /\
  fst (Defensive.renderContact contact skeleton) !! "#contact .contact-cta" =
    skeleton !! "#contact .contact-cta".
Proof. repeat split; vm_compute; reflexivity. Qed.

(** In [src/js/app.js] nothing stands in for the link: with no [phone]
    entry the renderer has written the heading and the (empty) list of
    entries when it throws, and an entry without [link] gives the target
    [undefined]. *)
Lemma strict_cta_link_unguarded :
  Strict.renderContact (JObj [("details", JObj [])]) skeleton =
    (<["#contact .contact-info" := Html ""]> (<["#contact h2" := Text ""]> skeleton),
     Throw (TypeError "Cannot read properties of undefined (reading 'link')")) /\
  Strict.cta (JObj []) (JObj [("phone", JObj [])]) =
    Ok (cta_markup "undefined" "undefined" "undefined").
Proof. split; vm_compute; reflexivity. Qed.

(* ===================================================================== *)
(** * 13. More on the page chrome                                         *)
(* ===================================================================== *)

Lemma mem_In (k : string) (names : list string) : mem k names = true <-> In k names.
Proof.
  unfold mem. rewrite existsb_exists. split.
  - intros (x & Hin & Heq). apply String.eqb_eq in Heq. now subst.
  - intros Hin. exists k. split; [assumption | apply String.eqb_refl].
Qed.

Lemma contains_add_other (c c' : string) (classList : list string) :
  c' <> c ->
  classList_contains c' (classList_add c classList) = classList_contains c' classList.
Proof.
  intros Hne. unfold classList_contains, classList_add.
  destruct (mem c classList); [reflexivity |].
  rewrite mem_app. simpl. apply String.eqb_neq in Hne. rewrite Hne.
  now rewrite !orb_false_r.
Qed.

Lemma contains_remove_other (c c' : string) (classList : list string) :
  c' <> c ->
  classList_contains c' (classList_remove c classList) = classList_contains c' classList.
Proof.
  intros Hne. unfold classList_contains, classList_remove, mem.
  induction classList as [| x rest IH]; [reflexivity |].
  simpl. destruct (String.eqb x c) eqn:Hx; simpl.
  - apply String.eqb_eq in Hx. subst x.
    apply String.eqb_neq in Hne. now rewrite Hne.
  - now rewrite IH.
Qed.

Lemma add_NoDup (c : string) (classList : list string) :
  NoDup classList -> NoDup (classList_add c classList).
Proof.
  intros Hnd. unfold classList_add. destruct (mem c classList) eqn:Hm; [exact Hnd |].
  apply NoDup_app. repeat split.
  - exact Hnd.
  - intros x Hx Hin. apply list_elem_of_In in Hin. simpl in Hin.
    destruct Hin as [<- | []].
    apply list_elem_of_In, mem_In in Hx. congruence.
  - apply NoDup_singleton.
Qed.

Lemma remove_NoDup (c : string) (classList : list string) :
  NoDup classList -> NoDup (classList_remove c classList).
Proof.
  intros Hnd. unfold classList_remove.
  induction Hnd as [| x rest Hx Hnd IH]; simpl; [constructor |].
  destruct (negb (String.eqb x c)); [| exact IH].
  constructor; [| exact IH].
  intros Hin. apply Hx. apply list_elem_of_In in Hin.
  apply List.filter_In in Hin. apply list_elem_of_In. tauto.
Qed.

(** [classList.add], [classList.remove] and [classList.toggle], as the
    listeners use them, keep a class list free of duplicates and change the
    membership of no class but their own; [toggle] flips the membership of
    its own class. *)
Lemma classList_keeps_set (c : string) (classList : list string) :
  (NoDup classList ->
   NoDup (classList_add c classList) /\ NoDup (classList_remove c classList) /\
   NoDup (classList_toggle c classList)) /\
  (forall c', c' <> c ->
     classList_contains c' (classList_add c classList) = classList_contains c' classList /\
     classList_contains c' (classList_remove c classList) = classList_contains c' classList /\
     classList_contains c' (classList_toggle c classList) = classList_contains c' classList) /\
  classList_contains c (classList_toggle c classList) =
    negb (classList_contains c classList).
Proof.
  split; [| split].
  - intros Hnd. repeat split; auto using add_NoDup, remove_NoDup.
    unfold classList_toggle. destruct (mem c classList); auto using add_NoDup, remove_NoDup.
  - intros c' Hne. repeat split; auto using contains_add_other, contains_remove_other.
    unfold classList_toggle.
    destruct (mem c classList); auto using contains_add_other, contains_remove_other.
  - unfold classList_toggle. destruct (mem c classList) eqn:Hm.
    + rewrite classList_contains_remove. unfold classList_contains. now rewrite Hm.
    + rewrite classList_contains_add. unfold classList_contains. now rewrite Hm.
Qed.

(** The class list of a toggle that is open, with a class added twice by
    the markup ruled out. *)
Lemma classList_keeps_set_witness :
  NoDup (classList_toggle "active" ["nav-toggle"; "active"]) /\
  classList_contains "nav-toggle" (classList_toggle "active" ["nav-toggle"; "active"]) = true.
Proof.
  destruct (classList_keeps_set "active" ["nav-toggle"; "active"]) as (Hnd & Hother & _).
  split.
  - apply Hnd. apply (bool_decide_unpack _). vm_compute. reflexivity.
  - destruct (Hother "nav-toggle") as (_ & _ & ->); [discriminate | reflexivity].
Defined.

Lemma on_classList_present (sel : string) (f : list string -> list string)
    (chrome : gmap string (list string)) (classList : list string) :
  chrome !! sel = Some classList ->
  on_classList sel f chrome = (<[sel := f classList]> chrome, Ok tt).
Proof. intros H. unfold on_classList. now rewrite H. Qed.

Lemma has_class_insert (chrome : gmap string (list string)) (sel sel' c : string)
    (classList : list string) :
  has_class (<[sel := classList]> chrome) sel' c =
  if String.eqb sel sel' then classList_contains c classList else has_class chrome sel' c.
Proof.
  unfold has_class. destruct (String.eqb sel sel') eqn:H.
  - apply String.eqb_eq in H. subst. now rewrite lookup_insert_eq.
  - apply String.eqb_neq in H. now rewrite lookup_insert_ne.
Qed.

(** What both click listeners come to on a page that has the menu and the
    toggle: [f] applied to the class list of each. *)
Lemma both_present (f : list string -> list string)
    (chrome : gmap string (list string)) (menu toggle : list string) :
  chrome !! ".nav-menu" = Some menu ->
  chrome !! ".nav-toggle" = Some toggle ->
  and_then (on_classList ".nav-menu" f) (on_classList ".nav-toggle" f) chrome =
    (<[".nav-toggle" := f toggle]> (<[".nav-menu" := f menu]> chrome), Ok tt).
Proof.
  intros Hmenu Htoggle. unfold and_then.
  rewrite (on_classList_present _ _ _ _ Hmenu).
  apply on_classList_present. now rewrite lookup_insert_ne.
Qed.

(** X1: on a page that has the menu and the toggle, a click on the toggle
    completes, flips [active] on both, and leaves every other class and
    every other element as it was; a second click brings every class of
    every element back to where it stood.  On a page without the menu the
    listener throws before it has changed anything. *)
Theorem toggle_click_flips (chrome : gmap string (list string)) :
  (forall menu toggle,
     chrome !! ".nav-menu" = Some menu ->
     chrome !! ".nav-toggle" = Some toggle ->
     let chrome' := fst (on_toggle_click chrome) in
     snd (on_toggle_click chrome) = Ok tt /\
     has_class chrome' ".nav-menu" "active" = negb (has_class chrome ".nav-menu" "active") /\
     has_class chrome' ".nav-toggle" "active" = negb (has_class chrome ".nav-toggle" "active") /\
     (forall sel c, c <> "active" -> has_class chrome' sel c = has_class chrome sel c) /\
     (forall sel, sel <> ".nav-menu" -> sel <> ".nav-toggle" ->
        chrome' !! sel = chrome !! sel) /\
     snd (on_toggle_click chrome') = Ok tt /\
     (forall sel c, has_class (fst (on_toggle_click chrome')) sel c = has_class chrome sel c)) /\
  (chrome !! ".nav-menu" = None ->
   exists e, on_toggle_click chrome = (chrome, Throw e)).
Proof.
  split.
  - intros menu toggle Hmenu Htoggle.
    assert (Hflip : forall cl, classList_contains "active" (classList_toggle "active" cl)
                               = negb (classList_contains "active" cl))
      by (intros cl; apply classList_keeps_set).
    assert (Hother : forall cl c, c <> "active" ->
              classList_contains c (classList_toggle "active" cl) = classList_contains c cl)
      by (intros cl c Hc; now apply classList_keeps_set).
    assert (Hafter : forall sel c,
              has_class (fst (on_toggle_click chrome)) sel c =
              if String.eqb c "active" && (String.eqb sel ".nav-menu" || String.eqb sel ".nav-toggle")
              then negb (has_class chrome sel c) else has_class chrome sel c).
    { intros sel c. unfold on_toggle_click.
      rewrite (both_present _ _ _ _ Hmenu Htoggle). simpl.
      rewrite !has_class_insert. rewrite (String.eqb_sym ".nav-toggle"), (String.eqb_sym ".nav-menu").
      destruct (String.eqb sel ".nav-toggle") eqn:Ht.
      - apply String.eqb_eq in Ht. subst sel. unfold has_class. rewrite Htoggle.
        rewrite orb_true_r, andb_true_r.
        destruct (String.eqb c "active") eqn:Hc.
        + apply String.eqb_eq in Hc. subst c. apply Hflip.
        + apply String.eqb_neq in Hc. now apply Hother.
      - rewrite orb_false_r. destruct (String.eqb sel ".nav-menu") eqn:Hm.
        + apply String.eqb_eq in Hm. subst sel. unfold has_class. rewrite Hmenu.
          rewrite andb_true_r.
          destruct (String.eqb c "active") eqn:Hc.
          * apply String.eqb_eq in Hc. subst c. apply Hflip.
          * apply String.eqb_neq in Hc. now apply Hother.
        + now rewrite andb_false_r. }
    assert (Hpage : fst (on_toggle_click chrome) =
                    <[".nav-toggle" := classList_toggle "active" toggle]>
                      (<[".nav-menu" := classList_toggle "active" menu]> chrome)).
    { unfold on_toggle_click. now rewrite (both_present _ _ _ _ Hmenu Htoggle). }
    cbv zeta. repeat apply conj.
    + unfold on_toggle_click. now rewrite (both_present _ _ _ _ Hmenu Htoggle).
    + now rewrite Hafter.
    + now rewrite Hafter.
    + intros sel c Hc. rewrite Hafter. apply String.eqb_neq in Hc. now rewrite Hc.
    + intros sel Hm Ht. rewrite Hpage. now rewrite !lookup_insert_ne.
    + rewrite Hpage. unfold on_toggle_click.
      erewrite both_present; [reflexivity | |].
      * rewrite lookup_insert_ne by discriminate. apply lookup_insert_eq.
      * apply lookup_insert_eq.
    + intros sel c. rewrite Hpage at 1. unfold on_toggle_click at 1.
      erewrite both_present;
        [| rewrite lookup_insert_ne by discriminate; apply lookup_insert_eq
         | apply lookup_insert_eq].
      simpl. rewrite !has_class_insert.
      rewrite (String.eqb_sym ".nav-toggle"), (String.eqb_sym ".nav-menu").
      destruct (String.eqb sel ".nav-toggle") eqn:Ht.
      * apply String.eqb_eq in Ht. subst sel. unfold has_class. rewrite Htoggle.
        destruct (String.eqb c "active") eqn:Hc.
        -- apply String.eqb_eq in Hc. subst c. rewrite !Hflip. apply negb_involutive.
        -- apply String.eqb_neq in Hc. now rewrite !Hother.
      * destruct (String.eqb sel ".nav-menu") eqn:Hm.
        -- apply String.eqb_eq in Hm. subst sel. unfold has_class. rewrite Hmenu.
           destruct (String.eqb c "active") eqn:Hc.
           ++ apply String.eqb_eq in Hc. subst c. rewrite !Hflip. apply negb_involutive.
           ++ apply String.eqb_neq in Hc. now rewrite !Hother.
        -- reflexivity.
  - intros Hnone. unfold on_toggle_click, and_then, on_classList. rewrite Hnone. eauto.
Qed.

(** A closed menu, opened by one click and closed again by the next. *)
Lemma toggle_click_flips_witness :
  has_class (fst (on_toggle_click plain_chrome)) ".nav-menu" "active" = true /\
  has_class (fst (on_toggle_click (fst (on_toggle_click plain_chrome)))) ".nav-menu" "active"
    = false.
Proof.
  destruct (proj1 (toggle_click_flips plain_chrome) ["nav-menu"] ["nav-toggle"]
              eq_refl eq_refl) as (_ & Hmenu & _ & _ & _ & _ & Hback).
  split; [exact Hmenu | exact (Hback ".nav-menu" "active")].
Defined.

Lemma remove_remove (c : string) (classList : list string) :
  classList_remove c (classList_remove c classList) = classList_remove c classList.
Proof.
  unfold classList_remove. induction classList as [| x rest IH]; [reflexivity |].
  simpl. destruct (negb (String.eqb x c)) eqn:Hx; [| exact IH].
  simpl. rewrite Hx. now rewrite IH.
Qed.

Lemma add_add (c : string) (classList : list string) :
  classList_add c (classList_add c classList) = classList_add c classList.
Proof.
  pose proof (classList_contains_add c classList) as H.
  unfold classList_contains in H. unfold classList_add at 1. now rewrite H.
Qed.

(** X2: on a page that has the menu and the toggle, a click on a link of
    the menu completes and leaves the menu closed, whatever state it was
    in: neither element carries [active] afterwards, every other class and
    every other element is as it was, and a further click changes
    nothing. *)
Theorem link_click_closes (chrome : gmap string (list string))
    (menu toggle : list string) :
  chrome !! ".nav-menu" = Some menu ->
  chrome !! ".nav-toggle" = Some toggle ->
  let chrome' := fst (on_link_click chrome) in
  snd (on_link_click chrome) = Ok tt /\
  has_class chrome' ".nav-menu" "active" = false /\
  has_class chrome' ".nav-toggle" "active" = false /\
  (forall sel c, c <> "active" -> has_class chrome' sel c = has_class chrome sel c) /\
  (forall sel, sel <> ".nav-menu" -> sel <> ".nav-toggle" ->
     chrome' !! sel = chrome !! sel) /\
  on_link_click chrome' = (chrome', Ok tt).
Proof.
  intros Hmenu Htoggle. cbv zeta. unfold on_link_click.
  rewrite (both_present _ _ _ _ Hmenu Htoggle). simpl.
  repeat apply conj.
  - reflexivity.
  - rewrite !has_class_insert. simpl. apply classList_contains_remove.
  - rewrite !has_class_insert. simpl. apply classList_contains_remove.
  - intros sel c Hc. rewrite !has_class_insert.
    destruct (String.eqb ".nav-toggle" sel) eqn:Ht.
    + apply String.eqb_eq in Ht. subst sel. unfold has_class. rewrite Htoggle.
      now apply contains_remove_other.
    + destruct (String.eqb ".nav-menu" sel) eqn:Hm; [| reflexivity].
      apply String.eqb_eq in Hm. subst sel. unfold has_class. rewrite Hmenu.
      now apply contains_remove_other.
  - intros sel Hm Ht. now rewrite !lookup_insert_ne.
  - erewrite both_present;
      [| rewrite lookup_insert_ne by discriminate; apply lookup_insert_eq
       | apply lookup_insert_eq].
    rewrite !remove_remove. f_equal.
    rewrite (insert_id _ ".nav-menu")
      by (rewrite lookup_insert_ne by discriminate; apply lookup_insert_eq).
    apply insert_id, lookup_insert_eq.
Qed.

(** The menu opened by a click on the toggle, then a click on a link. *)
Lemma link_click_closes_witness :
  let chrome := fst (on_toggle_click plain_chrome) in
  has_class chrome ".nav-menu" "active" = true /\
  has_class (fst (on_link_click chrome)) ".nav-menu" "active" = false /\
  has_class (fst (on_link_click chrome)) ".nav-toggle" "active" = false.
Proof.
  intros chrome.
  destruct (link_click_closes chrome ["nav-menu"; "active"] ["nav-toggle"; "active"]
              eq_refl eq_refl) as (_ & Hmenu & Htoggle & _).
  split; [reflexivity | split; assumption].
Defined.

(** X3: on a page that has a navigation bar, the [scroll] listener touches
    nothing but the class [scrolled] of the bar: every other class of the
    bar and every other element is as it was, a class list without
    duplicates stays so, and a second event at the same position changes
    nothing.  On a page without the bar the listener throws and changes
    nothing. *)
Theorem on_scroll_steady (scrollY : Q) (chrome : gmap string (list string)) :
  (forall classList,
     chrome !! ".navbar" = Some classList ->
     let chrome' := fst (on_scroll scrollY chrome) in
     (forall c, c <> "scrolled" ->
        has_class chrome' ".navbar" c = has_class chrome ".navbar" c) /\
     (forall sel, sel <> ".navbar" -> chrome' !! sel = chrome !! sel) /\
     (NoDup classList -> exists classList',
        chrome' !! ".navbar" = Some classList' /\ NoDup classList') /\
     on_scroll scrollY chrome' = (chrome', Ok tt)) /\
  (chrome !! ".navbar" = None ->
   exists e, on_scroll scrollY chrome = (chrome, Throw e)).
Proof.
  split.
  - intros classList Hbar. cbv zeta. unfold on_scroll.
    destruct (past_threshold scrollY);
      rewrite (on_classList_present _ _ _ _ Hbar); simpl; repeat apply conj.
    + intros c Hc. rewrite has_class_insert. simpl. unfold has_class. rewrite Hbar.
      now apply contains_add_other.
    + intros sel Hsel. now rewrite lookup_insert_ne.
    + intros Hnd. eexists. split; [apply lookup_insert_eq | now apply add_NoDup].
    + erewrite on_classList_present by apply lookup_insert_eq.
      now rewrite add_add, insert_insert_eq.
    + intros c Hc. rewrite has_class_insert. simpl. unfold has_class. rewrite Hbar.
      now apply contains_remove_other.
    + intros sel Hsel. now rewrite lookup_insert_ne.
    + intros Hnd. eexists. split; [apply lookup_insert_eq | now apply remove_NoDup].
    + erewrite on_classList_present by apply lookup_insert_eq.
      now rewrite remove_remove, insert_insert_eq.
  - intros Hnone. unfold on_scroll, on_classList. rewrite Hnone.
    destruct (past_threshold scrollY); eauto.
Qed.

(** The bar of the plain page, scrolled to 120 and scrolled to 120 again. *)
Lemma on_scroll_steady_witness :
  let chrome' := fst (on_scroll 120 plain_chrome) in
  has_class chrome' ".navbar" "navbar" = true /\
  on_scroll 120 chrome' = (chrome', Ok tt).
Proof.
  intros chrome'.
  destruct (proj1 (on_scroll_steady 120 plain_chrome) ["navbar"] eq_refl)
    as (Hother & _ & _ & Hagain).
  split; [| exact Hagain].
  unfold chrome'. rewrite (Hother "navbar"); [reflexivity | discriminate].
Defined.

(* ===================================================================== *)
(** * 14. More on the loader                                              *)
(* ===================================================================== *)

(** X4: in both copies, a call of [loadData] changes the cache in one way
    only: it stores, under the name it was called with, the document that a
    response with a success status parsed to, and returns that document.
    Every other name keeps what it had, and a call that stores nothing
    leaves the whole cache as it was. *)
Theorem loadData_cache_frame (v : variant) (net : network) (name : string)
    (dataCache dataCache' : gmap string json) (data : value) (trace : list event) :
  loadData v net name dataCache = (data, dataCache', trace) ->
  (forall name', name' <> name -> dataCache' !! name' = dataCache !! name') /\
  (dataCache' = dataCache \/
   exists d r,
     net (data_url name) = FetchResolves r /\ ok r = true /\ body r = BodyParses d /\
     dataCache' = <[name := d]> dataCache /\ data = Json d).
Proof.
  unfold loadData.
  destruct (truthy (dataCache_get dataCache name)).
  - intros [= <- <- <-]. auto.
  - destruct (net (data_url name)) as [e | [[] [e | m | d]]] eqn:Hnet; simpl;
      try destruct v; intros [= <- <- <-]; auto.
    all: split; [intros name' Hne; now apply lookup_insert_ne | right; eauto 10].
Qed.

(** [menu] loaded into a cache that holds [site]. *)
Lemma loadData_cache_frame_witness :
  let net := fun _ => FetchResolves (Response true (BodyParses (JObj []))) in
  snd (fst (loadData Strict net "menu" {["site" := JObj [("name", JStr "K")]]}))
    !! "site" = Some (JObj [("name", JStr "K")]).
Proof.
  intros net.
  destruct (loadData Strict net "menu" {["site" := JObj [("name", JStr "K")]]})
    as [[data c'] trace] eqn:Hcall.
  destruct (loadData_cache_frame _ _ _ _ _ _ _ Hcall) as [Hframe _].
  simpl. rewrite Hframe by discriminate. reflexivity.
Defined.

(** X5: in both copies, a call of [loadData] sends a request exactly when
    the lookup of the name in the cache is falsy; it sends no more than
    one, and only to [data/<name>.json]. *)
Theorem loadData_one_request (v : variant) (net : network) (name : string)
    (dataCache : gmap string json) :
  let trace := snd (loadData v net name dataCache) in
  fetches trace = (if truthy (dataCache_get dataCache name) then 0 else 1)%nat /\
  forall url, In (Fetch url) trace -> url = "data/" +:+ name +:+ ".json".
Proof.
  cbv zeta. destruct (truthy (dataCache_get dataCache name)) eqn:Hhit.
  - rewrite (loadData_hit v net name dataCache Hhit). simpl. split; [reflexivity |].
    intros url [].
  - unfold loadData. rewrite Hhit.
    destruct (net (data_url name)) as [e | [[] [e | m | d]]]; simpl;
      try destruct v; simpl; (split; [reflexivity |]);
      intros url Hin; simpl in Hin; unfold transport_diagnostic in Hin;
      repeat (destruct Hin as [Hin | Hin]; [try discriminate Hin; now injection Hin as <- |]);
      destruct Hin.
Qed.

(** X6: in both copies, a call of [loadData] that sends its request prints
    to the console exactly when the retrieval or the parse fails: then the
    request is followed by a [console.error] line that starts with the name
    of the file, and by error lines only; otherwise the request is all
    there is. *)
Theorem loadData_reports_failures (v : variant) (net : network) (name : string)
    (dataCache : gmap string json) :
  truthy (dataCache_get dataCache name) = false ->
  let trace := snd (loadData v net name dataCache) in
  (failed (net (data_url name)) = true ->
   exists line lines,
     trace = Fetch (data_url name) :: line :: lines /\
     names_the_file name line /\
     Forall (fun l => exists args, l = ConsoleError args) lines) /\
  (failed (net (data_url name)) = false -> trace = [Fetch (data_url name)]).
Proof.
  intros Hmiss. cbv zeta. unfold loadData. rewrite Hmiss.
  destruct (net (data_url name)) as [e | [[] [e | m | d]]]; simpl;
    try destruct v; simpl; split; intros Hf; try discriminate Hf; try reflexivity.
  all: do 2 eexists; split; [reflexivity |];
    split; [eexists; auto | repeat constructor; eauto].
Qed.

(** [about] answered with a body that is cut short. *)
Lemma loadData_reports_failures_witness :
  let net := fun _ => FetchResolves (Response true (BodyMalformed "Unexpected end")) in
  exists line lines,
    snd (loadData Defensive net "about" ∅) = Fetch "data/about.json" :: line :: lines /\
    names_the_file "about" line.
Proof.
  intros net.
  assert (Hmiss : truthy (dataCache_get ∅ "about") = false) by reflexivity.
  assert (Hfailed : failed (net (data_url "about")) = true) by reflexivity.
  destruct (proj1 (loadData_reports_failures Defensive net "about" ∅ Hmiss) Hfailed)
    as (line & lines & Htrace & Hline & _).
  exists line, lines. split; assumption.
Defined.

(* ===================================================================== *)
(** * 15. More on the bootstrapper                                        *)
(* ===================================================================== *)

Lemma init_state (page : gmap string content) (chrome : gmap string (list string)) :
  init page chrome =
  World ∅ page chrome
    [Fetch "data/site.json"; Fetch "data/about.json"; Fetch "data/menu.json";
     Fetch "data/services.json"; Fetch "data/contact.json"]
    (tasks (init page chrome)) Pending false false /\
  forall s, tasks (init page chrome) s = Loading Fetching.
Proof. split; [reflexivity | intros []; reflexivity]. Qed.

Lemma run_app (v : variant) (net : network) (a b : list turn) (w : world) :
  run v net (a ++ b) w = run v net b (run v net a w).
Proof.
  revert w. induction a as [| t rest IH]; intros w; [reflexivity |].
  simpl. destruct (step v net t w); apply IH.
Qed.

(** A property of the state that holds when [init] reaches its [await] and
    that no turn breaks holds after every schedule. *)
Lemma run_invariant (v : variant) (net : network) (P : world -> Prop) :
  (forall t w w', P w -> step v net t w = Some w' -> P w') ->
  forall schedule w, P w -> P (run v net schedule w).
Proof.
  intros Hstep schedule. induction schedule as [| t rest IH]; intros w Hw; [exact Hw |].
  simpl. destruct (step v net t w) as [w' |] eqn:Ht.
  - apply IH. eapply Hstep; eauto.
  - now apply IH.
Qed.

(** The lines a turn of a renderer adds to the console are diagnostics of
    [loadData]. *)
Lemma resume_console (v : variant) (net : network) (s : section_name) (w w' : world) :
  resume v net s w = Some w' ->
  exists lines,
    console w' = console w ++ lines /\
    Forall (fun l => exists args, l = ConsoleError args /\
                     args <> [] /\
                     hd (LogStr "") args <> LogStr "Error initializing app:") lines.
Proof.
  unfold resume. destruct (tasks w s) as [[| r | data] | c]; [| | | discriminate].
  - unfold loadData_fetched.
    destruct (net _) as [e | r]; [| destruct (negb (ok r))];
      intros [= <-]; simpl; eexists; (split; [reflexivity |]);
      repeat constructor; unfold transport_diagnostic; eexists;
      (split; [reflexivity | split; [discriminate | destruct s; discriminate]]).
  - unfold loadData_decoded.
    destruct (body r) as [e | m | d]; try destruct v;
      intros [= <-]; simpl; eexists; (split; [reflexivity |]);
      unfold transport_diagnostic, syntax_diagnostic; repeat constructor;
      eexists; (split; [reflexivity | split; [discriminate | destruct s; discriminate]]).
  - destruct (renderer v s data (page w)). intros [= <-]. simpl.
    exists []. split; [now rewrite app_nil_r | constructor].
Qed.

(** X7: in both copies, [init] sends its five requests before anything
    else, for [site], [about], [menu], [services] and [contact] in this
    order, and whatever the answers and however the event loop schedules
    the renderers no further request is ever sent: a load that failed is
    not tried again. *)
Theorem init_sends_five_requests (v : variant) (net : network)
    (page : gmap string content) (chrome : gmap string (list string))
    (schedule : list turn) :
  List.filter is_fetch (console (run v net schedule (init page chrome))) =
    [Fetch "data/site.json"; Fetch "data/about.json"; Fetch "data/menu.json";
     Fetch "data/services.json"; Fetch "data/contact.json"] /\
  firstn 5 (console (run v net schedule (init page chrome))) =
    [Fetch "data/site.json"; Fetch "data/about.json"; Fetch "data/menu.json";
     Fetch "data/services.json"; Fetch "data/contact.json"].
Proof.
  apply (run_invariant v net
           (fun w => List.filter is_fetch (console w) = console (init page chrome) /\
                     firstn 5 (console w) = console (init page chrome))).
  - intros t w w' [Hfilter Hfirst] Hstep.
    assert (Hadd : exists lines, console w' = console w ++ lines /\
                     Forall (fun l => is_fetch l = false) lines).
    { destruct t as [s |]; simpl in Hstep.
      - destruct (resume_console v net s w w' Hstep) as (lines & Hc & Hl).
        exists lines. split; [exact Hc |].
        eapply Forall_impl; [exact Hl |]. intros l (args & -> & _). reflexivity.
      - unfold continue in Hstep. destruct (init_done w); [discriminate |].
        destruct (all w); [discriminate | |].
        + destruct (initNavigation _);
            injection Hstep as <-; simpl; eexists; split; try reflexivity;
            repeat constructor.
        + injection Hstep as <-. simpl. eexists. split; [reflexivity |].
          repeat constructor. }
    destruct Hadd as (lines & -> & Hlines). split.
    + rewrite List.filter_app, Hfilter.
      assert (Hnone : List.filter is_fetch lines = []).
      { clear - Hlines. induction Hlines as [| l rest Hl _ IH]; [reflexivity |].
        simpl. now rewrite Hl. }
      rewrite Hnone. apply app_nil_r.
    + rewrite firstn_app, Hfirst.
      assert (Hlen : (5 <= length (console w))%nat).
      { assert (H5 : length (console (init page chrome)) = 5%nat) by reflexivity.
        rewrite <- Hfirst, length_take in H5. lia. }
      replace (5 - length (console w))%nat with 0%nat by lia.
      simpl. apply app_nil_r.
  - split; reflexivity.
Qed.

Lemma set_task_cases (s s' : section_name) (t : task) (ts : section_name -> task) :
  (s' = s /\ set_task s t ts s' = t) \/ (s' <> s /\ set_task s t ts s' = ts s').
Proof.
  destruct (section_name_eqb s s') eqn:H.
  - apply section_name_eqb_spec in H. subst. left. split; [reflexivity | apply set_task_same].
  - right. assert (Hne : s <> s').
    { intros ->. now rewrite section_name_eqb_refl in H. }
    split; [auto | now apply set_task_other].
Qed.

Ltac task_cases H :=
  match type of H with
  | set_task ?s ?t ?ts ?s' = _ =>
      let Heq := fresh "Heq" in
      destruct (set_task_cases s s' t ts) as [[-> Heq] | [_ Heq]]; rewrite Heq in H
  end.

Lemma step_from_network (v : variant) (net : network) (t : turn) (w w' : world) :
  from_network net w -> step v net t w = Some w' -> from_network net w'.
Proof.
  intros [Hwait Hcache] Hstep. destruct t as [s |]; simpl in Hstep.
  - unfold resume in Hstep.
    destruct (tasks w s) as [[| r | data] | c] eqn:Htask; [| | | discriminate].
    + unfold loadData_fetched in Hstep.
      destruct (net (data_url (filename s))) as [e | r] eqn:Hnet;
        [| destruct (ok r) eqn:Hok]; simpl in Hstep; injection Hstep as <-;
        (split; [| exact Hcache]); simpl; intros s' r' Hs';
        task_cases Hs'; try discriminate; auto.
      injection Hs' as <-. auto.
    + destruct (Hwait s r Htask) as [Hnet Hok].
      unfold loadData_decoded in Hstep.
      destruct (body r) as [e | m | d] eqn:Hbody; try destruct v;
        injection Hstep as <-; split; simpl; auto;
        try (intros s' r' Hs'; task_cases Hs'; try discriminate; auto).
      all: intros name d' Hd'; destruct (decide (filename s = name)) as [<- | Hne];
        [ rewrite lookup_insert_eq in Hd'; injection Hd' as <-; eauto 10
        | rewrite lookup_insert_ne in Hd' by assumption; auto ].
    + destruct (renderer v s data (page w)). injection Hstep as <-.
      split; simpl; auto. intros s' r' Hs'.
      task_cases Hs'; try discriminate; auto.
  - unfold continue in Hstep. destruct (init_done w); [discriminate |].
    destruct (all w); [discriminate | |].
    + destruct (initNavigation _); injection Hstep as <-; split; simpl; auto.
    + injection Hstep as <-. split; simpl; auto.
Qed.

(** X8: in both copies, however the event loop schedules the renderers, the
    cache never holds anything but documents of the five sections, each of
    them what the body of a response with a success status parsed to: no
    failure is ever stored. *)
Theorem cache_holds_parsed_documents (v : variant) (net : network)
    (page : gmap string content) (chrome : gmap string (list string))
    (schedule : list turn) (name : string) (d : json) :
  dataCache (run v net schedule (init page chrome)) !! name = Some d ->
  exists s r,
    name = filename s /\ net (data_url name) = FetchResolves r /\
    ok r = true /\ body r = BodyParses d.
Proof.
  assert (H : from_network net (run v net schedule (init page chrome))).
  { apply run_invariant.
    - intros t w w'. apply step_from_network.
    - destruct (init_state page chrome) as [Hinit Htasks]. split.
      + intros s r Hs. rewrite Htasks in Hs. discriminate.
      + intros n d'. rewrite Hinit. simpl. rewrite lookup_empty. discriminate. }
  apply H.
Qed.

(** Every renderer given its three turns on the plain site: what the cache
    holds for [site] is what the server has. *)
Lemma cache_holds_parsed_documents_witness :
  let schedule := concat (map (fun s => repeat (Resume s) 3) sections) in
  dataCache (run Defensive plain_net schedule (init skeleton plain_chrome)) !! "site"
    = Some (JObj [("name", JStr "Uncle & Aunty Kitchen")]) /\
  exists s r,
    "site" = filename s /\ plain_net (data_url "site") = FetchResolves r /\
    ok r = true /\ body r = BodyParses (JObj [("name", JStr "Uncle & Aunty Kitchen")]).
Proof.
  intros schedule.
  assert (H : dataCache (run Defensive plain_net schedule (init skeleton plain_chrome))
                !! "site" = Some (JObj [("name", JStr "Uncle & Aunty Kitchen")]))
    by (vm_compute; reflexivity).
  split; [exact H |].
  exact (cache_holds_parsed_documents Defensive plain_net skeleton plain_chrome
           schedule "site" _ H).
Defined.

Lemma filter_no_init_line (lines : list event) :
  Forall (fun l => exists args, l = ConsoleError args /\
                   args <> [] /\
                   hd (LogStr "") args <> LogStr "Error initializing app:") lines ->
  List.filter init_line lines = [].
Proof.
  induction 1 as [| l rest (args & -> & Hne & Hhd) _ IH]; [reflexivity |].
  simpl. destruct args as [| [h | e] args]; [contradiction | | exact IH].
  simpl in Hhd. destruct (String.eqb h "Error initializing app:") eqn:Hh; [| exact IH].
  apply String.eqb_eq in Hh. subst h. contradiction.
Qed.

Lemma initNavigation_spec (chrome0 : gmap string (list string)) :
  initNavigation chrome0 = Ok tt <-> is_Some (chrome0 !! ".nav-toggle").
Proof.
  unfold initNavigation. destruct (chrome0 !! ".nav-toggle"); split; intros H;
    try reflexivity; try discriminate; eauto.
  destruct H as [x H]. discriminate.
Qed.

Lemma some_section (P : section_name -> bool) :
  forallb P sections = false -> exists s, P s = false.
Proof.
  unfold sections. simpl.
  destruct (P Site) eqn:?, (P About) eqn:?, (P Menu) eqn:?, (P Services) eqn:?,
    (P Contact) eqn:?; simpl; intros H; try discriminate H; eauto.
Qed.

Lemma init_joined (page : gmap string content) (chrome0 : gmap string (list string)) :
  joined chrome0 (init page chrome0).
Proof.
  destruct (init_state page chrome0) as [Hinit Htasks].
  rewrite Hinit. unfold joined. simpl. repeat apply conj; try discriminate; auto.
  - intros _. split.
    + exists Site. now rewrite Htasks.
    + intros s e. rewrite Htasks. discriminate.
Qed.

Lemma resume_joined (v : variant) (net : network) (chrome0 : gmap string (list string))
    (s : section_name) (w w' : world) :
  joined chrome0 w -> resume v net s w = Some w' -> joined chrome0 w'.
Proof.
  intros Hj Hstep.
  destruct (resume_console v net s w w' Hstep) as (lines & Hconsole & Hlines).
  apply filter_no_init_line in Hlines.
  destruct Hj as (Hchrome & Hpending & Hrejected & Hfulfilled & Hbefore & Hafter).
  assert (Hloading : settled (tasks w s) = false).
  { unfold resume in Hstep. destruct (tasks w s); [reflexivity | discriminate]. }
  assert (Hnotfull : all w <> Fulfilled).
  { intros Hf. rewrite (Hfulfilled Hf s) in Hloading. discriminate. }
  assert (Hsame : chrome w' = chrome w /\ init_done w' = init_done w /\ wired w' = wired w).
  { unfold resume in Hstep.
    destruct (tasks w s) as [[| r | data] | c]; [| | | discriminate].
    - destruct (loadData_fetched _ _). now injection Hstep as <-.
    - destruct (loadData_decoded _ _ _ _) as [[? ?] ?]. now injection Hstep as <-.
    - destruct (renderer _ _ _ _). now injection Hstep as <-. }
  destruct Hsame as (Hc & Hd & Hw).
  assert (Hfilter : List.filter init_line (console w') = List.filter init_line (console w)).
  { rewrite Hconsole, List.filter_app, Hlines. apply app_nil_r. }
  assert (Hjoin :
            (exists pc, tasks w' = set_task s (Loading pc) (tasks w) /\ all w' = all w) \/
            (exists c, tasks w' = set_task s (Settled c) (tasks w) /\
                       all w' = react c (set_task s (Settled c) (tasks w)) (all w))).
  { unfold resume in Hstep.
    destruct (tasks w s) as [[| r | data] | c]; [| | | discriminate].
    - destruct (loadData_fetched _ _). injection Hstep as <-. left. eauto.
    - destruct (loadData_decoded _ _ _ _) as [[? ?] ?]. injection Hstep as <-. left. eauto.
    - destruct (renderer _ _ _ _). injection Hstep as <-. right. eauto. }
  assert (Hkeep : forall s0 e, tasks w s0 = Settled (Throw e) ->
                    forall t, set_task s t (tasks w) s0 = Settled (Throw e)).
  { intros s0 e Hs0 t. destruct (set_task_cases s s0 t (tasks w)) as [[-> _] | [_ ->]].
    - rewrite Hs0 in Hloading. discriminate.
    - exact Hs0. }
  unfold joined. rewrite Hc, Hd, Hw, Hfilter.
  split; [exact Hchrome |].
  destruct Hjoin as [(pc & Ht & Ha) | (c & Ht & Ha)]; rewrite Ht, Ha.
  - repeat apply conj; auto.
    + intros Hp. destruct (Hpending Hp) as [_ Hnothrow]. split.
      * exists s. now rewrite set_task_same.
      * intros s0 e Hs0.
        destruct (set_task_cases s s0 (Loading pc) (tasks w)) as [[-> Heq] | [_ Heq]];
          rewrite Heq in Hs0; [discriminate | exact (Hnothrow s0 e Hs0)].
    + intros e He. destruct (Hrejected e He) as [s0 Hs0]. exists s0. now apply Hkeep.
    + intros Hf. contradiction.
  - destruct (all w) eqn:Hall.
    + (* pending *)
      destruct (Hpending eq_refl) as [_ Hnothrow].
      assert (Hinit : init_done w = false).
      { destruct (init_done w) eqn:Hi; [| reflexivity].
        destruct (Hafter eq_refl) as (Hnp & _). contradiction. }
      destruct c as [[] | e]; unfold react.
      * match goal with
        | |- context [forallb ?f sections] => destruct (forallb f sections) eqn:Hfor
        end.
        -- repeat apply conj; try discriminate; auto.
           ++ intros _ s0. rewrite all_sections in Hfor. apply fulfilled_spec, Hfor.
           ++ rewrite Hinit. discriminate.
        -- repeat apply conj; try discriminate; auto.
           ++ intros _.
              assert (Hnothrow' : forall s0 e,
                        set_task s (Settled (Ok tt)) (tasks w) s0 <> Settled (Throw e)).
              { intros s0 e Hs0.
                destruct (set_task_cases s s0 (Settled (Ok tt)) (tasks w))
                  as [[-> Heq] | [_ Heq]]; rewrite Heq in Hs0;
                  [discriminate | exact (Hnothrow s0 e Hs0)]. }
              split; [| exact Hnothrow'].
              assert (Hex : exists s0,
                        fulfilled (set_task s (Settled (Ok tt)) (tasks w) s0) = false)
                by (apply some_section, Hfor).
              destruct Hex as [s0 Hs0]. exists s0.
              destruct (set_task s (Settled (Ok tt)) (tasks w) s0) as [pc | [[] | e]] eqn:Hv;
                [reflexivity | discriminate | destruct (Hnothrow' s0 e Hv)].
      * repeat apply conj; try discriminate; auto.
        -- intros e' [= <-]. exists s. apply set_task_same.
        -- rewrite Hinit. discriminate.
    + contradiction.
    + simpl. repeat apply conj; try discriminate; auto.
      intros e He. destruct (Hrejected e He) as [s0 Hs0]. exists s0. now apply Hkeep.
Qed.

Lemma continue_joined (chrome0 : gmap string (list string)) (w w' : world) :
  joined chrome0 w -> continue w = Some w' -> joined chrome0 w'.
Proof.
  intros (Hchrome & Hpending & Hrejected & Hfulfilled & Hbefore & Hafter) Hstep.
  unfold continue in Hstep. destruct (init_done w) eqn:Hdone; [discriminate |].
  destruct (Hbefore eq_refl) as [Hwired Hnone].
  destruct (all w) eqn:Hall; [discriminate | |].
  - subst chrome0.
    destruct (initNavigation (chrome w)) as [[] | e] eqn:Hnav; injection Hstep as <-;
      unfold joined; simpl; rewrite List.filter_app, Hnone;
      (split; [reflexivity |]); (split; [discriminate |]);
      (split; [discriminate |]); (split; [exact Hfulfilled |]);
      (split; [discriminate |]); intros _;
      (split; [discriminate |]);
      (split; [| unfold report; rewrite Hnav; reflexivity]).
    + split; [| reflexivity]. intros _. split; [reflexivity |].
      now apply initNavigation_spec.
    + rewrite Hwired. split; [discriminate |].
      intros [_ Hsome]. apply initNavigation_spec in Hsome. congruence.
  - injection Hstep as <-. unfold joined. simpl.
    rewrite List.filter_app, Hnone.
    split; [exact Hchrome |]. split; [discriminate |].
    split; [exact Hrejected |]. split; [discriminate |].
    split; [discriminate |]. intros _.
    split; [discriminate |]. split; [| reflexivity].
    rewrite Hwired. split; [discriminate |]. intros [Hf _]. discriminate.
Qed.

Lemma run_joined (v : variant) (net : network) (page : gmap string content)
    (chrome0 : gmap string (list string)) (schedule : list turn) :
  joined chrome0 (run v net schedule (init page chrome0)).
Proof.
  apply run_invariant; [| apply init_joined].
  intros [s |] w w' Hj Hstep; simpl in Hstep;
    [eapply resume_joined | eapply continue_joined]; eauto.
Qed.

(** A renderer that is settled stays as it is. *)
Lemma step_settled (v : variant) (net : network) (t : turn) (s : section_name)
    (w w' : world) :
  step v net t w = Some w' -> settled (tasks w s) = true -> tasks w' s = tasks w s.
Proof.
  intros Hstep Hs. destruct t as [s' |]; simpl in Hstep.
  - assert (Hne : s' <> s).
    { intros ->. unfold resume in Hstep. destruct (tasks w s); discriminate. }
    unfold resume in Hstep.
    destruct (tasks w s') as [[| r | data] | c]; [| | | discriminate].
    + destruct (loadData_fetched _ _). injection Hstep as <-. now apply set_task_other.
    + destruct (loadData_decoded _ _ _ _) as [[? ?] ?]. injection Hstep as <-.
      now apply set_task_other.
    + destruct (renderer _ _ _ _). injection Hstep as <-. now apply set_task_other.
  - unfold continue in Hstep. destruct (init_done w); [discriminate |].
    destruct (all w); [discriminate | |].
    + destruct (initNavigation _); now injection Hstep as <-.
    + now injection Hstep as <-.
Qed.

Lemma run_settled (v : variant) (net : network) (schedule : list turn)
    (s : section_name) (w : world) :
  settled (tasks w s) = true -> tasks (run v net schedule w) s = tasks w s.
Proof.
  revert w. induction schedule as [| t rest IH]; intros w Hs; [reflexivity |].
  simpl. destruct (step v net t w) as [w' |] eqn:Hstep; [| now apply IH].
  pose proof (step_settled v net t s w w' Hstep Hs) as Hsame.
  rewrite IH by (now rewrite Hsame). exact Hsame.
Qed.

(** Each turn of a renderer brings it one [await] closer to its end. *)
Lemma resume_remaining (v : variant) (net : network) (s : section_name) (w : world) :
  match resume v net s w with
  | Some w' => (remaining (tasks w' s) < remaining (tasks w s))%nat
  | None => remaining (tasks w s) = 0%nat
  end.
Proof.
  unfold resume. destruct (tasks w s) as [[| r | data] | c] eqn:Htask; simpl.
  - unfold loadData_fetched. destruct (net _) as [e | r]; [| destruct (negb (ok r))];
      simpl; rewrite set_task_same; simpl; lia.
  - unfold loadData_decoded. destruct (body r); try destruct v;
      simpl; rewrite set_task_same; simpl; lia.
  - destruct (renderer _ _ _ _). simpl. rewrite set_task_same. simpl. lia.
  - reflexivity.
Qed.

Lemma run_remaining (v : variant) (net : network) (s : section_name) (n : nat)
    (w : world) :
  (remaining (tasks (run v net (repeat (Resume s) n) w) s) <= remaining (tasks w s) - n)%nat.
Proof.
  revert w. induction n as [| n IH]; intros w; simpl; [lia |].
  pose proof (resume_remaining v net s w) as H.
  destruct (resume v net s w) as [w' |].
  - specialize (IH w'). lia.
  - specialize (IH w). lia.
Qed.

Lemma three_turns_settle (v : variant) (net : network) (s : section_name) (w : world) :
  settled (tasks (run v net (repeat (Resume s) 3) w) s) = true.
Proof.
  pose proof (run_remaining v net s 3 w) as H.
  destruct (tasks (run v net (repeat (Resume s) 3) w) s) as [[| r | data] | c];
    [| | | reflexivity]; simpl in H;
    destruct (tasks w s) as [[| r' | data'] | c']; simpl in H; lia.
Qed.

Lemma turns_settle (v : variant) (net : network) (l : list section_name)
    (s : section_name) (w : world) :
  In s l ->
  settled (tasks (run v net (concat (map (fun s => repeat (Resume s) 3) l)) w) s) = true.
Proof.
  revert w. induction l as [| a l IH]; intros w Hin; [destruct Hin |].
  change (concat (map (fun s => repeat (Resume s) 3) (a :: l)))
    with (repeat (Resume a) 3 ++ concat (map (fun s => repeat (Resume s) 3) l)).
  rewrite run_app. destruct Hin as [-> | Hin].
  - rewrite run_settled; apply three_turns_settle.
  - now apply IH.
Qed.

(** Where every schedule that gives each renderer its turns and [init] one
    more ends up. *)
Lemma end_state (v : variant) (net : network) (page : gmap string content)
    (chrome0 : gmap string (list string)) (schedule : list turn) :
  let w := run v net (schedule ++ to_the_end) (init page chrome0) in
  joined chrome0 w /\ init_done w = true /\ forall s, settled (tasks w s) = true.
Proof.
  intros w.
  set (w5 := run v net (schedule ++ concat (map (fun s => repeat (Resume s) 3) sections))
               (init page chrome0)).
  assert (Hw : w = run v net [Continue] w5).
  { unfold w, w5, to_the_end. now rewrite app_assoc, run_app. }
  assert (Hj5 : joined chrome0 w5) by apply run_joined.
  assert (Hs5 : forall s, settled (tasks w5 s) = true).
  { intros s. unfold w5. rewrite run_app. apply turns_settle.
    destruct s; simpl; tauto. }
  split; [apply run_joined |]. split.
  - rewrite Hw. simpl. unfold continue. destruct (init_done w5) eqn:Hd5; [exact Hd5 |].
    destruct Hj5 as (_ & Hpending & _).
    destruct (all w5) eqn:Hall.
    + destruct (Hpending eq_refl) as [[s Hs] _]. rewrite Hs5 in Hs. discriminate.
    + destruct (initNavigation _); reflexivity.
    + reflexivity.
  - intros s. rewrite Hw, run_settled; apply Hs5.
Qed.

(** X9: in both copies, whatever the network answers and however far the
    event loop has come, once every renderer has had the turns it needs and
    [init] has had one more, every renderer is settled and [init] is done
    and has printed exactly one line of its own.  The listeners of
    [initNavigation] are installed if and only if all five renderers were
    fulfilled and the page has its [.nav-toggle]; the line is then the
    success message.  Otherwise the line is [Error initializing app:] with
    the exception of a renderer that was rejected, or with the one
    [initNavigation] throws on a page without [.nav-toggle]. *)
Theorem init_always_finishes (v : variant) (net : network)
    (page : gmap string content) (chrome0 : gmap string (list string))
    (schedule : list turn) :
  let w := run v net (schedule ++ to_the_end) (init page chrome0) in
  init_done w = true /\
  (forall s, settled (tasks w s) = true) /\
  (wired w = true <->
   (forall s, tasks w s = Settled (Ok tt)) /\ is_Some (chrome0 !! ".nav-toggle")) /\
  (wired w = true ->
   List.filter init_line (console w) =
     [ConsoleLog [LogStr "Uncle & Aunty Kitchen loaded successfully!"]]) /\
  (wired w = false ->
   exists e,
     List.filter init_line (console w) =
       [ConsoleError [LogStr "Error initializing app:"; LogErr e]] /\
     ((exists s, tasks w s = Settled (Throw e)) \/ chrome0 !! ".nav-toggle" = None)).
Proof.
  intros w.
  destruct (end_state v net page chrome0 schedule) as (Hj & Hdone & Hsettled).
  fold w in Hj, Hdone, Hsettled.
  destruct Hj as (_ & Hpending & Hrejected & Hfulfilled & _ & Hafter).
  destruct (Hafter Hdone) as (Hnp & Hwired & Hline).
  split; [exact Hdone |]. split; [exact Hsettled |]. split; [| split].
  - split.
    + intros Hw1. apply Hwired in Hw1. destruct Hw1 as [Hf Htoggle]. auto.
    + intros [Hall Htoggle]. apply Hwired. split; [| exact Htoggle].
      destruct (all w) as [| | reason] eqn:Ha; [contradiction | reflexivity |].
      destruct (Hrejected reason eq_refl) as [s Hs]. rewrite Hall in Hs. discriminate.
  - intros Hw1. apply Hwired in Hw1. destruct Hw1 as [Hf Htoggle].
    rewrite Hline, Hf. unfold report.
    apply initNavigation_spec in Htoggle. now rewrite Htoggle.
  - intros Hw0. rewrite Hline. unfold report.
    destruct (all w) as [| | reason] eqn:Ha; [contradiction | |].
    + destruct (initNavigation chrome0) as [[] | e] eqn:Hnav.
      * assert (Hw1 : wired w = true).
        { apply Hwired. split; [reflexivity | now apply initNavigation_spec]. }
        congruence.
      * exists e. split; [reflexivity |]. right.
        unfold initNavigation in Hnav. destruct (chrome0 !! ".nav-toggle");
          [discriminate | reflexivity].
    + exists reason. split; [now destruct (initNavigation chrome0) | left; auto].
Qed.

(* ===================================================================== *)
(** * 16. A document the strict renderers cannot take                     *)
(* ===================================================================== *)


(** Walks through a renderer on a page of which nothing is known. *)
Ltac walk :=
  repeat first
    [ progress (unfold mbind, dom_action_bind, result_bind, querySelector,
                querySelector_in, set_textContent, set_innerHTML, lift, write; simpl)
    | match goal with
      | |- context [match ?d !! ?k with _ => _ end] => destruct (d !! k) eqn:?
      | |- context [match text_of ?x with _ => _ end] => destruct (text_of x) eqn:?
      end ].

Ltac thrown :=
  simpl; eexists;
  (split; [reflexivity
          | try reflexivity;
            try (apply lookup_insert_ne; let Hk := fresh in
                 intros Hk; vm_compute in Hk; discriminate Hk)]).


Lemma container_target (s : section_name) : In (container s) (targets s).
Proof. destruct s; simpl; tauto. Qed.

Lemma step_stuck (v : variant) (net : network) (s : section_name) (k : string)
    (r : response) (doc : json) (page0 : gmap string content) (t : turn)
    (w w' : world) :
  In k (targets s) ->
  net (data_url (filename s)) = FetchResolves r -> ok r = true ->
  body r = BodyParses doc ->
  (forall page1, exists e,
     snd (renderer v s doc page1) = Throw e /\
     fst (renderer v s doc page1) !! k = page1 !! k) ->
  stuck s k r doc page0 w -> step v net t w = Some w' -> stuck s k r doc page0 w'.
Proof.
  intros Hin Hnet Hok Hbody Hthrows [Hpage Htask] Hstep.
  destruct t as [s' |]; simpl in Hstep.
  - destruct (set_task_cases s' s (Loading Fetching) (tasks w)) as [[-> _] | [Hne _]].
    + (* its own turn *)
      unfold resume in Hstep.
      destruct (tasks w s') as [[| r' | data] | c]; [| | | discriminate].
      * rewrite Hnet in Hstep. simpl in Hstep. rewrite Hok in Hstep. simpl in Hstep.
        injection Hstep as <-. split; simpl; [exact Hpage |].
        now rewrite set_task_same.
      * subst r'. rewrite Hbody in Hstep. simpl in Hstep. destruct v;
          injection Hstep as <-; (split; simpl; [exact Hpage |]);
          now rewrite set_task_same.
      * subst data.
        destruct (Hthrows (page w)) as (e & Hthrow & Hkeep).
        destruct (renderer v s' doc (page w)) as [page' c]. simpl in *.
        injection Hstep as <-. split; simpl; [congruence |].
        rewrite set_task_same. eauto.
    + (* a turn of another renderer *)
      assert (Hview : same_view s w' w).
      { apply (step_other_view v net s (Resume s')); [| exact Hstep].
        simpl. destruct (section_name_eqb s s') eqn:Heq; [| reflexivity].
        apply section_name_eqb_spec in Heq. congruence. }
      destruct Hview as [Ht Hp]. split.
      * rewrite (Hp _ Hin). exact Hpage.
      * now rewrite Ht.
  - unfold continue in Hstep. destruct (init_done w); [discriminate |].
    destruct (all w); [discriminate | |].
    + destruct (initNavigation _); injection Hstep as <-; now split.
    + injection Hstep as <-. now split.
Qed.

(** A document that makes the renderer of its section throw keeps [init]
    from installing the listeners, under every schedule. *)
Lemma thrown_document_stops_init (v : variant) (net : network)
    (page0 : gmap string content) (chrome0 : gmap string (list string))
    (s : section_name) (k : string) (r : response) (doc : json) :
  In k (targets s) ->
  net (data_url (filename s)) = FetchResolves r -> ok r = true ->
  body r = BodyParses doc ->
  (forall page1, exists e,
     snd (renderer v s doc page1) = Throw e /\
     fst (renderer v s doc page1) !! k = page1 !! k) ->
  (forall schedule,
     let w := run v net schedule (init page0 chrome0) in
     tasks w s <> Settled (Ok tt) /\
     page w !! k = page0 !! k /\
     wired w = false) /\
  (forall schedule,
     let w := run v net (schedule ++ to_the_end) (init page0 chrome0) in
     (exists e, tasks w s = Settled (Throw e)) /\
     exists e, List.filter init_line (console w) =
                 [ConsoleError [LogStr "Error initializing app:"; LogErr e]]).
Proof.
  intros Hin Hnet Hok Hbody Hthrows.
  assert (Hstuck : forall schedule,
            stuck s k r doc page0 (run v net schedule (init page0 chrome0))).
  { intros schedule. apply run_invariant.
    - intros t w w'. now apply (step_stuck v net s k r doc page0).
    - destruct (init_state page0 chrome0) as [Hinit Htasks]. split.
      + now rewrite Hinit.
      + now rewrite Htasks. }
  assert (Hnever : forall schedule,
            tasks (run v net schedule (init page0 chrome0)) s <> Settled (Ok tt)).
  { intros schedule Hs. destruct (Hstuck schedule) as [_ Ht].
    rewrite Hs in Ht. destruct Ht as [e He]. discriminate. }
  assert (Hunwired : forall schedule,
            wired (run v net schedule (init page0 chrome0)) = false).
  { intros schedule.
    pose proof (run_joined v net page0 chrome0 schedule)
      as (_ & _ & _ & Hfulfilled & Hbefore & Hafter).
    destruct (init_done (run v net schedule (init page0 chrome0))) eqn:Hdone.
    - destruct (Hafter eq_refl) as (_ & Hwired & _).
      destruct (wired (run v net schedule (init page0 chrome0))); [| reflexivity].
      destruct (proj1 Hwired eq_refl) as [Hf _].
      destruct (Hnever schedule (Hfulfilled Hf s)).
    - now destruct (Hbefore eq_refl). }
  split.
  - intros schedule w. split; [apply Hnever |]. split; [apply Hstuck | apply Hunwired].
  - intros schedule w.
    destruct (end_state v net page0 chrome0 schedule) as (Hj & Hdone & Hsettled).
    fold w in Hj, Hdone, Hsettled. split.
    + destruct (Hstuck (schedule ++ to_the_end)) as [_ Ht]. fold w in Ht.
      specialize (Hsettled s).
      destruct (tasks w s) as [pc | c]; [discriminate |].
      destruct Ht as [e ->]. eauto.
    + destruct Hj as (_ & _ & _ & Hfulfilled & _ & Hafter).
      destruct (Hafter Hdone) as (Hnp & _ & ->). unfold report.
      destruct (all w) as [| | reason] eqn:Ha; [contradiction | |].
      * destruct (Hnever (schedule ++ to_the_end) (Hfulfilled eq_refl s)).
      * exists reason. now destruct (initNavigation chrome0).
Qed.



(* ===================================================================== *)
(** * 17. When no document can be loaded                                  *)
(* ===================================================================== *)

Lemma step_idle (v : variant) (net : network) (page0 : gmap string content)
    (t : turn) (w w' : world) :
  (forall s, failed (net (data_url (filename s))) = true) ->
  from_network net w -> idle page0 w -> step v net t w = Some w' -> idle page0 w'.
Proof.
  intros Hfailed [Hwait _] (Hpage & Hcache & Htasks) Hstep.
  destruct t as [s |]; simpl in Hstep.
  - unfold resume in Hstep. pose proof (Htasks s) as Hs.
    destruct (tasks w s) as [[| r | data] | c] eqn:Htask; [| | | discriminate].
    + assert (Hpc : match fst (loadData_fetched (filename s)
                                 (net (data_url (filename s)))) with
                    | Returned data => data = Json JNull
                    | _ => True
                    end).
      { unfold loadData_fetched. destruct (net _) as [e | r]; [reflexivity |].
        now destruct (negb (ok r)). }
      destruct (loadData_fetched _ _) as [pc lines]. injection Hstep as <-.
      repeat split; simpl; auto. intros s'.
      destruct (set_task_cases s s' (Loading pc) (tasks w)) as [[-> ->] | [_ ->]];
        [exact Hpc | apply Htasks].
    + destruct (Hwait s r Htask) as [Hnet Hok].
      specialize (Hfailed s). rewrite Hnet in Hfailed. simpl in Hfailed.
      rewrite Hok in Hfailed. simpl in Hfailed.
      unfold loadData_decoded in Hstep.
      destruct (body r) as [e | m | d]; [| | discriminate]; try destruct v;
        injection Hstep as <-; repeat split; simpl; auto; intros s';
        match goal with
        | |- context [set_task s ?t (tasks w) s'] =>
            destruct (set_task_cases s s' t (tasks w)) as [[-> ->] | [_ ->]];
              [reflexivity | apply Htasks]
        end.
    + subst data. rewrite renderer_falsy in Hstep by reflexivity.
      injection Hstep as <-. repeat split; simpl; auto. intros s'.
      destruct (set_task_cases s s' (Settled (Ok tt)) (tasks w)) as [[-> ->] | [_ ->]];
        [reflexivity | apply Htasks].
  - unfold continue in Hstep. destruct (init_done w); [discriminate |].
    destruct (all w); [discriminate | |].
    + destruct (initNavigation _); injection Hstep as <-; repeat split; simpl; auto.
    + injection Hstep as <-. repeat split; simpl; auto.
Qed.

Lemma init_from_network (net : network) (page0 : gmap string content)
    (chrome0 : gmap string (list string)) :
  from_network net (init page0 chrome0).
Proof.
  destruct (init_state page0 chrome0) as [Hinit Htasks]. split.
  - intros s r Hs. rewrite Htasks in Hs. discriminate.
  - intros n d'. rewrite Hinit. simpl. rewrite lookup_empty. discriminate.
Qed.

(** X11: in both copies, when every one of the five loads fails (the
    request is rejected, the status is not a success, or the body cannot be
    read or parsed), then however the event loop schedules the turns the
    page stays exactly as it was and nothing is cached; and once every
    renderer has had its turns and [init] one more, all five renderers have
    ended normally, the listeners are installed whenever the page has its
    [.nav-toggle], and [init] then prints its success message. *)
Theorem network_down_page_untouched (v : variant) (net : network)
    (page0 : gmap string content) (chrome0 : gmap string (list string)) :
  (forall s, failed (net (data_url (filename s))) = true) ->
  (forall schedule,
     let w := run v net schedule (init page0 chrome0) in
     page w = page0 /\ dataCache w = ∅) /\
  (forall schedule,
     let w := run v net (schedule ++ to_the_end) (init page0 chrome0) in
     (forall s, tasks w s = Settled (Ok tt)) /\
     (wired w = true <-> is_Some (chrome0 !! ".nav-toggle")) /\
     (is_Some (chrome0 !! ".nav-toggle") ->
      List.filter init_line (console w) =
        [ConsoleLog [LogStr "Uncle & Aunty Kitchen loaded successfully!"]])).
Proof.
  intros Hfailed.
  assert (Hidle : forall schedule,
            idle page0 (run v net schedule (init page0 chrome0))).
  { intros schedule.
    assert (H : from_network net (run v net schedule (init page0 chrome0)) /\
                idle page0 (run v net schedule (init page0 chrome0))).
    { apply (run_invariant v net (fun w => from_network net w /\ idle page0 w)).
      - intros t w w' [Hn Hi] Hstep. split.
        + eapply step_from_network; eauto.
        + eapply step_idle; eauto.
      - split; [apply init_from_network |].
        destruct (init_state page0 chrome0) as [Hinit Htasks].
        repeat split; try (rewrite Hinit; reflexivity).
        intros s. now rewrite Htasks. }
    apply H. }
  split.
  - intros schedule w. destruct (Hidle schedule) as (Hp & Hc & _). now split.
  - intros schedule w.
    destruct (end_state v net page0 chrome0 schedule) as (Hj & Hdone & Hsettled).
    fold w in Hj, Hdone, Hsettled.
    assert (Hall : forall s, tasks w s = Settled (Ok tt)).
    { intros s. destruct (Hidle (schedule ++ to_the_end)) as (_ & _ & Ht).
      specialize (Ht s). fold w in Ht. specialize (Hsettled s).
      destruct (tasks w s) as [pc | c]; [discriminate | now subst c]. }
    destruct Hj as (_ & Hpending & Hrejected & _ & _ & Hafter).
    destruct (Hafter Hdone) as (Hnp & Hwired & Hline).
    assert (Hf : all w = Fulfilled).
    { destruct (all w) as [| | reason] eqn:Ha; [contradiction | reflexivity |].
      destruct (Hrejected reason eq_refl) as [s Hs]. rewrite Hall in Hs. discriminate. }
    split; [exact Hall |]. split.
    + rewrite Hwired. split; [now intros [_ H] | now split].
    + intros Htoggle. rewrite Hline, Hf. unfold report.
      apply initNavigation_spec in Htoggle. now rewrite Htoggle.
Qed.

(** The server is unreachable: the plain page stays as it is and the
    navigation works. *)
Lemma network_down_page_untouched_witness :
  let net := fun _ => FetchRejects (TypeError "Failed to fetch") in
  let w := run Defensive net to_the_end (init skeleton plain_chrome) in
  page w = skeleton /\ wired w = true.
Proof.
  intros net w.
  assert (Hfailed : forall s, failed (net (data_url (filename s))) = true)
    by reflexivity.
  destruct (network_down_page_untouched Defensive net skeleton plain_chrome Hfailed)
    as [Hany Hend].
  split; [apply (Hany to_the_end) |].
  destruct (Hend []) as (_ & Hwired & _). apply Hwired.
  exists ["nav-toggle"]. reflexivity.
Defined.

(* ===================================================================== *)
(** * 18. Where the two copies render the same                            *)
(* ===================================================================== *)

Lemma filled_get (item : value) (k : string) :
  filled item k = true -> exists x, get item k = Ok x /\ truthy x = true.
Proof. unfold filled. destruct (get item k); [eauto | discriminate]. Qed.

Lemma show_filled (item : value) (k fallback : string) :
  filled item k = true -> Defensive.show item k fallback = Strict.show item k.
Proof.
  intros H. destruct (filled_get item k H) as (x & Hx & Ht).
  unfold Defensive.show, Strict.show. rewrite Hx. simpl. unfold or_else. now rewrite Ht.
Qed.

Lemma map_join_ext (f g : json -> result string) (items : list json) :
  Forall (fun item => f item = g item) items -> map_join f items = map_join g items.
Proof.
  intros H. unfold map_join. f_equal.
  induction H as [| item rest Hitem _ IH]; [reflexivity |].
  simpl. now rewrite Hitem, IH.
Qed.

Lemma or_else_truthy (a b : value) : truthy a = true -> or_else a b = a.
Proof. intros H. unfold or_else. now rewrite H. Qed.

Lemma strict_group (doc : value) (k : string) (items : list json)
    (f : json -> result string) :
  get doc k = Ok (Json (JArr items)) ->
  (x ← get doc k; array_map_join x f) = map_join f items.
Proof. intros ->. reflexivity. Qed.

Lemma defensive_group (doc : value) (k : string) (items : list json) :
  get doc k = Ok (Json (JArr items)) -> Defensive.group doc k = Ok items.
Proof. intros H. unfold Defensive.group. now rewrite H. Qed.

Lemma group_complete_items (doc : value) (k : string) (ks : list string) :
  group_complete doc k ks = true ->
  exists items,
    get doc k = Ok (Json (JArr items)) /\
    Forall (fun item : json => forall k', In k' ks -> filled item k' = true) items.
Proof.
  unfold group_complete.
  destruct (get doc k) as [[| n | [| | | | items |]] |]; try discriminate.
  intros H. exists items. split; [reflexivity |].
  rewrite forallb_forall in H. apply List.Forall_forall. intros item Hin k' Hk'.
  specialize (H item Hin). rewrite forallb_forall in H. now apply H.
Qed.

(** Walks through both copies of a renderer side by side. *)
Ltac side_by_side :=
  repeat first
    [ progress (unfold mbind, dom_action_bind, result_bind, querySelector,
                querySelector_in, set_textContent, set_innerHTML, lift, write; simpl)
    | progress (rewrite !or_else_truthy by assumption)
    | match goal with
      | |- context [match ?d !! ?k with _ => _ end] => destruct (d !! k) eqn:?
      | |- context [match text_of ?x with _ => _ end] => destruct (text_of x) eqn:?
      end ];
  try reflexivity.

Lemma services_agree (services : value) (page0 : gmap string content) :
  complete Services services = true ->
  Strict.renderServices services page0 = Defensive.renderServices services page0.
Proof.
  unfold complete. rewrite andb_true_iff. intros [Htitle Hitems].
  destruct (filled_get _ _ Htitle) as (title & Hget & Ht).
  destruct (group_complete_items _ _ _ Hitems) as (items & Hg & Hall).
  assert (Heq : map_join Strict.service_card items = map_join Defensive.service_card items).
  { apply map_join_ext. eapply Forall_impl; [exact Hall |]. intros item Hitem.
    unfold Strict.service_card, Defensive.service_card.
    rewrite !show_filled by (apply Hitem; listed). reflexivity. }
  unfold Strict.renderServices, Defensive.renderServices, Defensive.servicesHtml.
  rewrite (strict_group _ _ _ _ Hg), (defensive_group _ _ _ Hg), Heq, Hget.
  destruct (negb (truthy services)); [reflexivity |].
  side_by_side.
Qed.

Lemma about_agree (about : value) (page0 : gmap string content) :
  complete About about = true ->
  Strict.renderAbout about page0 = Defensive.renderAbout about page0.
Proof.
  unfold complete. rewrite !andb_true_iff. intros [[[Htitle Hps] Hfs] Hlen].
  destruct (filled_get _ _ Htitle) as (title & Hget & Ht).
  destruct (group_complete_items _ _ _ Hps) as (ps & Hp & _).
  destruct (group_complete_items _ _ _ Hfs) as (fs & Hf & Hall).
  rewrite Hf in Hlen. simpl in Hlen.
  assert (Heq : map_join Defensive.feature fs = map_join Strict.feature fs).
  { apply map_join_ext. eapply Forall_impl; [exact Hall |]. intros item Hitem.
    unfold Strict.feature, Defensive.feature.
    rewrite !show_filled by (apply Hitem; listed). reflexivity. }
  assert (HP : Defensive.paragraphsHtml about = map_join Strict.paragraph ps).
  { unfold Defensive.paragraphsHtml. rewrite (defensive_group _ _ _ Hp). reflexivity. }
  assert (HF : Defensive.featuresBlock about =
               (h ← map_join Strict.feature fs; Ok (features_markup h))).
  { unfold Defensive.featuresBlock. rewrite (defensive_group _ _ _ Hf). simpl.
    now rewrite Hlen, Heq. }
  unfold Strict.renderAbout, Defensive.renderAbout.
  rewrite !(strict_group _ _ _ _ Hp), !(strict_group _ _ _ _ Hf), HP, HF, Hget.
  destruct (negb (truthy about)); [reflexivity |].
  destruct (map_join Strict.feature fs), (map_join Strict.paragraph ps);
    side_by_side.
Qed.

Lemma contact_item_agree (item : json) :
  (forall k, In k ["icon"; "label"; "value"] -> filled item k = true) ->
  Strict.contact_item item = Defensive.contact_item item.
Proof.
  intros Hitem. unfold Strict.contact_item, Defensive.contact_item.
  rewrite !show_filled by (apply Hitem; listed).
  destruct (get item "link") as [link |] eqn:Hlink; [| reflexivity].
  assert (Hshow : Strict.show item "link" = to_string link).
  { unfold Strict.show. now rewrite Hlink. }
  now rewrite Hshow.
Qed.

Lemma contact_agree (contact : value) (page0 : gmap string content) :
  complete Contact contact = true ->
  Strict.renderContact contact page0 = Defensive.renderContact contact page0.
Proof.
  unfold complete. rewrite !andb_true_iff.
  intros [[[[Htitle Hdetails] Hcta_text] Hcta_button] Hrest].
  destruct (filled_get _ _ Htitle) as (title & Hget & Ht).
  destruct (filled_get _ _ Hdetails) as (details & Hd & Hdt).
  rewrite Hd in Hrest. apply andb_true_iff in Hrest. destruct Hrest as [Hitems Hphone].
  destruct (Object_values details) as [items |] eqn:Hvalues; [| discriminate].
  destruct (get details "phone") as [phone |] eqn:Hp; [| discriminate].
  destruct (filled_get _ _ Hphone) as (link & Hl & Hlt).
  assert (Hhtml : Strict.contactHtml details = Defensive.contactHtml contact).
  { unfold Strict.contactHtml, Defensive.contactHtml, Defensive.detailItems,
      Defensive.details_of.
    rewrite Hd, Hvalues. simpl. rewrite or_else_truthy, Hvalues by assumption. simpl.
    apply map_join_ext. rewrite forallb_forall in Hitems. apply List.Forall_forall.
    intros item Hin. apply contact_item_agree. intros k Hk.
    specialize (Hitems item Hin). rewrite forallb_forall in Hitems. now apply Hitems. }
  assert (Hmarkup : Strict.cta contact details = Defensive.cta contact).
  { unfold Strict.cta, Defensive.cta, Strict.phoneLink, Defensive.phoneLink,
      Defensive.details_of.
    rewrite !show_filled by assumption. rewrite Hd. simpl.
    rewrite or_else_truthy, Hp by assumption. simpl.
    assert (Hopt : get_opt phone "link" = Ok link).
    { destruct phone as [| f | []]; try discriminate Hl; exact Hl. }
    rewrite Hl, Hopt. simpl. rewrite or_else_truthy by assumption.
    destruct (Strict.show contact "cta_text"); reflexivity. }
  unfold Strict.renderContact, Defensive.renderContact.
  rewrite <- Hhtml, <- Hmarkup, Hget, Hd.
  destruct (negb (truthy contact)); [reflexivity |].
  side_by_side.
Qed.

Lemma map_join_alike (f g : json -> result string) (items : list json) :
  Forall (fun item => alike (f item) (g item)) items ->
  alike (map_join f items) (map_join g items).
Proof.
  intros H. unfold map_join.
  assert (Hparts : alike (mapM f items) (mapM g items)).
  { induction H as [| item rest Hitem _ IH]; simpl; [exact I |].
    destruct (f item), (g item); simpl in *; try contradiction; [| exact Hitem].
    destruct (mapM f rest), (mapM g rest); simpl in *; auto. }
  destruct (mapM f items), (mapM g items); simpl in *; auto.
Qed.

Lemma dish_alike (item : json) :
  (forall k, In k ["name"; "description"] -> filled item k = true) ->
  alike (Strict.dish item) (Defensive.dish item).
Proof.
  intros Hitem. unfold Strict.dish, Defensive.dish.
  rewrite !show_filled by (apply Hitem; listed).
  destruct (Strict.show item "name"); simpl; [| reflexivity].
  destruct (Strict.show item "description"); simpl; [exact I | reflexivity].
Qed.

Lemma category_alike (c : json) :
  filled c "name" = true ->
  group_complete c "items" ["name"; "description"] = true ->
  alike (Strict.category c) (Defensive.category c).
Proof.
  intros Hname Hitems.
  destruct (group_complete_items _ _ _ Hitems) as (items & Hg & Hall).
  unfold Strict.category, Defensive.category.
  rewrite (strict_group _ _ _ _ Hg), (defensive_group _ _ _ Hg), show_filled by assumption.
  simpl. destruct (Strict.show c "name"); simpl; [| reflexivity].
  assert (Hdishes : alike (map_join Strict.dish items) (map_join Defensive.dish items)).
  { apply map_join_alike. eapply Forall_impl; [exact Hall |]. apply dish_alike. }
  destruct (map_join Strict.dish items), (map_join Defensive.dish items);
    simpl in *; auto.
Qed.

Lemma insert_same_lookup (d1 d2 : gmap string content) (x k : string) (c : content) :
  d1 !! k = d2 !! k -> <[x := c]> d1 !! k = <[x := c]> d2 !! k.
Proof.
  intros H. destruct (decide (x = k)) as [-> | Hne].
  - now rewrite !lookup_insert_eq.
  - now rewrite !lookup_insert_ne.
Qed.

Lemma insert_differ (d : gmap string content) (x k : string) (a b : content) :
  k <> x -> <[x := a]> d !! k = <[x := b]> d !! k.
Proof. intros H. now rewrite !lookup_insert_ne by congruence. Qed.

Ltac side_by_side_apart :=
  repeat first
    [ progress (unfold mbind, dom_action_bind, result_bind, querySelector,
                querySelector_in, set_textContent, set_innerHTML, lift, write; simpl)
    | progress (rewrite !or_else_truthy by assumption)
    | progress (rewrite !lookup_insert_ne
                  by (let H := fresh in intros H; vm_compute in H; discriminate H))
    | match goal with
      | |- context [match ?d !! ?k with _ => _ end] => destruct (d !! k) eqn:?
      | |- context [match text_of ?x with _ => _ end] => destruct (text_of x) eqn:?
      end ].

Lemma menu_agree (menu : value) (page0 : gmap string content) :
  complete Menu menu = true ->
  snd (Strict.renderMenu menu page0) = snd (Defensive.renderMenu menu page0) /\
  forall k, k <> "#menu .menu-grid" ->
    fst (Strict.renderMenu menu page0) !! k = fst (Defensive.renderMenu menu page0) !! k.
Proof.
  unfold complete. rewrite !andb_true_iff. intros [[Htitle Hnote] Hcs].
  destruct (filled_get _ _ Htitle) as (title & Hget & Ht).
  destruct (filled_get _ _ Hnote) as (note & Hn & Hnt).
  destruct (get menu "categories") as [[| n | [| | | | cs |]] |] eqn:Hg;
    try discriminate.
  assert (Hhtml : alike (map_join Strict.category cs) (map_join Defensive.category cs)).
  { apply map_join_alike. rewrite forallb_forall in Hcs. apply List.Forall_forall.
    intros c Hin. specialize (Hcs c Hin). apply andb_true_iff in Hcs.
    now apply category_alike. }
  assert (HD : Defensive.categoriesHtml menu = map_join Defensive.category cs).
  { unfold Defensive.categoriesHtml. rewrite (defensive_group _ _ _ Hg). reflexivity. }
  unfold Strict.renderMenu, Defensive.renderMenu.
  rewrite (strict_group _ _ _ _ Hg), HD, Hget, Hn.
  destruct (negb (truthy menu)); [now split |].
  destruct (map_join Strict.category cs), (map_join Defensive.category cs);
    simpl in Hhtml; try contradiction; subst; side_by_side_apart;
    (split; [reflexivity |]); intros k Hk;
    repeat first [reflexivity | apply insert_same_lookup | apply insert_differ; exact Hk].
Qed.

(** X13: on a document that has everything its renderer shows (a truthy
    title, every group an array, every field of every item truthy, a
    telephone link, at least one feature), the two copies do the same to
    every page, with one exception: the markup they write into the menu
    grid differs (the copies indent it differently), while the menu
    renderers still end the same way and agree on every other element. *)
Theorem copies_agree_on_complete_documents (s : section_name) (doc : value)
    (page0 : gmap string content) :
  complete s doc = true ->
  snd (renderer Strict s doc page0) = snd (renderer Defensive s doc page0) /\
  (forall k, k <> "#menu .menu-grid" ->
     fst (renderer Strict s doc page0) !! k =
     fst (renderer Defensive s doc page0) !! k) /\
  (s <> Menu -> renderer Strict s doc page0 = renderer Defensive s doc page0).
Proof.
  intros Hcomplete.
  assert (Hsame : s <> Menu ->
                  renderer Strict s doc page0 = renderer Defensive s doc page0).
  { intros Hs. destruct s; simpl; try contradiction; try reflexivity.
    - now apply about_agree.
    - now apply services_agree.
    - now apply contact_agree. }
  destruct (section_name_eqb s Menu) eqn:Hmenu.
  - apply section_name_eqb_spec in Hmenu. subst s.
    destruct (menu_agree doc page0 Hcomplete) as [Hend Hpage].
    split; [exact Hend |]. split; [exact Hpage | contradiction].
  - assert (Hs : s <> Menu).
    { intros ->. discriminate. }
    rewrite (Hsame Hs). split; [reflexivity |]. split; [reflexivity | auto].
Qed.

(** A menu of one dish: both copies fill the heading and the note alike,
    and write different markup into the grid. *)
Lemma copies_agree_on_complete_documents_witness :
  let menu := JObj [("title", JStr "Our Menu"); ("note", JStr "Ask for today's special");
                    ("categories",
                     JArr [JObj [("name", JStr "Curries");
                                 ("items", JArr [JObj [("name", JStr "Dal");
                                                       ("description", JStr "Lentils")]])]])] in
  snd (renderer Strict Menu menu skeleton) = snd (renderer Defensive Menu menu skeleton) /\
  fst (renderer Strict Menu menu skeleton) !! "#menu h2" =
    fst (renderer Defensive Menu menu skeleton) !! "#menu h2" /\
  fst (renderer Strict Menu menu skeleton) !! "#menu .menu-grid" <>
    fst (renderer Defensive Menu menu skeleton) !! "#menu .menu-grid".
Proof.
  intros menu.
  destruct (copies_agree_on_complete_documents Menu menu skeleton eq_refl)
    as (Hend & Hpage & _).
  split; [exact Hend |]. split.
  - apply Hpage. discriminate.
  - vm_compute. discriminate.
Defined.

(* ===================================================================== *)
(** * 19. What the guards of the defensive copy do not cover              *)
(* ===================================================================== *)

Lemma map_join_throws (f : json -> result string) (items : list json) (x : json) :
  In x items -> (exists e, f x = Throw e) -> exists e, map_join f items = Throw e.
Proof.
  intros Hin [e Hx]. unfold map_join.
  assert (Hparts : exists e', mapM f items = Throw e').
  { induction items as [| y rest IH]; [destruct Hin |]. simpl.
    destruct Hin as [-> | Hin].
    - rewrite Hx. simpl. eauto.
    - destruct (f y); simpl; [| eauto].
      destruct (IH Hin) as [e' ->]. simpl. eauto. }
  destruct Hparts as [e' ->]. simpl. eauto.
Qed.

(** In the defensive copy an entry of a group that is [null] makes the
    renderer throw before it writes the group's container. *)
Lemma defensive_null_entry_throws (s : section_name) (doc : value)
    (items : list json) (page0 : gmap string content) :
  truthy doc = true -> entries s doc = Ok items -> In JNull items ->
  exists e,
    snd (renderer Defensive s doc page0) = Throw e /\
    fst (renderer Defensive s doc page0) !! container s = page0 !! container s.
Proof.
  intros Htruthy Hentries Hnull.
  destruct (get_truthy doc "title" Htruthy) as [title Htitle].
  destruct s; simpl in Hentries; simpl renderer.
  - injection Hentries as <-. destruct Hnull.
  - assert (HF : exists e, Defensive.featuresBlock doc = Throw e).
    { unfold Defensive.featuresBlock. rewrite Hentries. simpl.
      destruct (map_join_throws Defensive.feature items JNull Hnull) as [e ->];
        simpl; eauto. }
    destruct HF as [e HF].
    unfold Defensive.renderAbout. rewrite Htruthy, Htitle, HF. simpl negb. cbv iota.
    destruct (Defensive.paragraphsHtml doc); walk; thrown.
  - assert (HC : exists e, Defensive.categoriesHtml doc = Throw e).
    { unfold Defensive.categoriesHtml. rewrite Hentries. simpl.
      apply (map_join_throws Defensive.category items JNull Hnull). simpl. eauto. }
    destruct HC as [e HC].
    unfold Defensive.renderMenu. rewrite Htruthy, Htitle, HC. simpl negb. cbv iota.
    walk; thrown.
  - assert (HS : exists e, Defensive.servicesHtml doc = Throw e).
    { unfold Defensive.servicesHtml. rewrite Hentries. simpl.
      apply (map_join_throws Defensive.service_card items JNull Hnull). simpl. eauto. }
    destruct HS as [e HS].
    unfold Defensive.renderServices. rewrite Htruthy, Htitle, HS. simpl negb. cbv iota.
    walk; thrown.
  - assert (HC : exists e, Defensive.contactHtml doc = Throw e).
    { unfold Defensive.contactHtml. rewrite Hentries. simpl.
      apply (map_join_throws Defensive.contact_item items JNull Hnull). simpl. eauto. }
    destruct HC as [e HC].
    unfold Defensive.renderContact. rewrite Htruthy, Htitle, HC. simpl negb. cbv iota.
    walk; thrown.
Qed.

(** X14: the guards of the defensive copy stop at the group: when the
    server has for a section a document one of whose entries ([features]
    of [about], [categories] of [menu], [items] of [services], the values
    of [details] of [contact]) is [null], the renderer of the section
    throws on every page before it writes the container of the group; so
    under every schedule it never ends normally, the container keeps what
    the page had and the listeners of [initNavigation] are never installed,
    and [init] ends by printing [Error initializing app:]. *)
Theorem defensive_null_entry_stops_init (net : network)
    (page0 : gmap string content) (chrome0 : gmap string (list string))
    (s : section_name) (r : response) (doc : json) (items : list json) :
  net (data_url (filename s)) = FetchResolves r -> ok r = true ->
  body r = BodyParses doc -> truthy doc = true ->
  entries s doc = Ok items -> In JNull items ->
  (forall page1, exists e,
     snd (renderer Defensive s doc page1) = Throw e /\
     fst (renderer Defensive s doc page1) !! container s = page1 !! container s) /\
  (forall schedule,
     let w := run Defensive net schedule (init page0 chrome0) in
     tasks w s <> Settled (Ok tt) /\
     page w !! container s = page0 !! container s /\
     wired w = false) /\
  (forall schedule,
     let w := run Defensive net (schedule ++ to_the_end) (init page0 chrome0) in
     (exists e, tasks w s = Settled (Throw e)) /\
     exists e, List.filter init_line (console w) =
                 [ConsoleError [LogStr "Error initializing app:"; LogErr e]]).
Proof.
  intros Hnet Hok Hbody Htruthy Hentries Hnull.
  assert (Hthrows : forall page1, exists e,
            snd (renderer Defensive s doc page1) = Throw e /\
            fst (renderer Defensive s doc page1) !! container s = page1 !! container s).
  { intros page1. now apply (defensive_null_entry_throws s doc items). }
  split; [exact Hthrows |].
  now apply (thrown_document_stops_init Defensive net page0 chrome0 s (container s) r doc
               (container_target s)).
Qed.

(** [data/services.json] with a [null] among its items, on the plain
    page. *)
Lemma defensive_null_entry_stops_init_witness :
  let doc := JObj [("title", JStr "Our Services");
                   ("items", JArr [JObj [("name", JStr "Catering")]; JNull])] in
  let net := fun _ => FetchResolves (Response true (BodyParses doc)) in
  let w := run Defensive net to_the_end (init skeleton plain_chrome) in
  (exists e, tasks w Services = Settled (Throw e)) /\
  wired w = false /\
  page w !! "#services .services-grid" = Some (Text "").
Proof.
  intros doc net w.
  assert (Hnull : In JNull [JObj [("name", JStr "Catering")]; JNull])
    by (simpl; tauto).
  destruct (defensive_null_entry_stops_init net skeleton plain_chrome Services
              (Response true (BodyParses doc)) doc _
              eq_refl eq_refl eq_refl eq_refl eq_refl Hnull) as (_ & Hany & Hend).
  destruct (Hend []) as [Hthrown _].
  destruct (Hany to_the_end) as (_ & Hpage & Hwired).
  split; [exact Hthrown |]. split; [exact Hwired |].
  exact (eq_trans Hpage eq_refl).
Defined.

(* ===================================================================== *)
(** * 20. What [renderSite] leaves on the page                            *)
(* ===================================================================== *)

Lemma substring_0_app (a s : string) : substring 0 (String.length a) (a +:+ s) = a.
Proof. induction a as [| c a IH]; simpl; [now destruct s | now rewrite IH]. Qed.

Lemma substring_skip (a s : string) (i n : nat) :
  substring (String.length a + i) n (a +:+ s) = substring i n s.
Proof. induction a as [| c a IH]; simpl; [reflexivity | exact IH]. Qed.

Lemma substring_app_middle (a p b : string) :
  substring (String.length a) (String.length p) (a +:+ p +:+ b) = p.
Proof.
  rewrite <- (Nat.add_0_r (String.length a)), substring_skip. apply substring_0_app.
Qed.

Lemma substring_length (s : string) (i n : nat) :
  String.length (substring i n s) = Nat.min n (String.length s - i).
Proof.
  revert i n. induction s as [| c s IH]; intros [| i] [| n]; simpl; try reflexivity.
  - now rewrite IH, Nat.sub_0_r.
  - apply IH.
  - apply IH.
Qed.

Lemma substring_all (s : string) (n : nat) :
  String.length s <= n -> substring 0 n s = s.
Proof.
  revert n. induction s as [| c s IH]; intros [| n] H; simpl in *; try reflexivity;
    try lia.
  rewrite IH by lia. reflexivity.
Qed.

Lemma string_split (s : string) (i n : nat) :
  i + n <= String.length s ->
  s = substring 0 i s +:+ substring i n s +:+
      substring (i + n) (String.length s - (i + n)) s.
Proof.
  revert i n. induction s as [| c s IH]; intros i n H; simpl in H.
  - assert (i = 0 /\ n = 0) as [-> ->] by lia. reflexivity.
  - destruct i as [| i].
    + destruct n as [| n]; simpl.
      * now rewrite substring_all by lia.
      * rewrite (IH 0 n) at 1 by lia. simpl.
        replace (substring 0 0 s) with EmptyString by now destruct s.
        reflexivity.
    + simpl. rewrite (IH i n) at 1 by lia. reflexivity.
Qed.

(** [s.replace(pattern, replacement)] takes out the leftmost occurrence of
    the pattern and nothing else. *)
Lemma replace_first_found (pattern replacement s : string) (i : nat) :
  pattern <> EmptyString -> index 0 pattern s = Some i ->
  exists a b,
    s = a +:+ pattern +:+ b /\
    replace_first pattern replacement s = a +:+ replacement +:+ b /\
    forall a' b', s = a' +:+ pattern +:+ b' -> String.length a <= String.length a'.
Proof.
  intros Hp Hi.
  pose proof (index_correct1 _ _ _ _ Hi) as Hsub.
  assert (Hlen : i + String.length pattern <= String.length s).
  { pose proof (substring_length s i (String.length pattern)) as Hl.
    rewrite Hsub in Hl.
    assert (Hpos : 0 < String.length pattern).
    { destruct pattern; [contradiction | simpl; lia]. }
    lia. }
  exists (substring 0 i s),
    (substring (i + String.length pattern)
       (String.length s - (i + String.length pattern)) s).
  split; [| split].
  - pose proof (string_split s i (String.length pattern) Hlen) as Hs.
    now rewrite Hsub in Hs.
  - unfold replace_first. now rewrite Hi.
  - intros a' b' Hs. rewrite substring_length.
    destruct (le_lt_dec i (String.length a')) as [Hle | Hlt]; [lia |].
    exfalso. apply (index_correct2 _ _ _ _ Hi (String.length a')); [lia | exact Hlt |].
    rewrite Hs. apply substring_app_middle.
Qed.

Lemma replace_first_missing (pattern replacement s : string) :
  pattern <> EmptyString -> index 0 pattern s = None ->
  replace_first pattern replacement s = s /\
  forall a b, s <> a +:+ pattern +:+ b.
Proof.
  intros Hp Hi. split.
  - unfold replace_first. now rewrite Hi.
  - intros a b Hs.
    apply (index_correct3 _ (String.length a) _ _ Hi Hp); [lia |].
    rewrite Hs. apply substring_app_middle.
Qed.

Lemma strip_kitchen_string (x : value) :
  (exists name, x = Json (JStr name)) \/ (exists e, strip_kitchen x = Throw e).
Proof. destruct x as [| f | [| b | n | s | items | props]]; simpl; eauto. Qed.

(** Walks through a renderer whose end is known. *)
Ltac walk_back :=
  repeat first
    [ progress (unfold mbind, dom_action_bind, result_bind, querySelector,
                querySelector_in, set_textContent, set_innerHTML, lift, write; simpl)
    | match goal with
      | |- context [match ?d !! ?k with _ => _ end] => destruct (d !! k) eqn:?
      | |- context [match text_of ?x with _ => _ end] => destruct (text_of x) eqn:?
      | |- context [match to_string ?x with _ => _ end] => destruct (to_string x) eqn:?
      | |- context [match json_to_string ?x with _ => _ end] =>
          destruct (json_to_string x) eqn:?
      end ];
  try (intros; discriminate).

(** X15: [renderSite], the same in both copies, can only end normally on a
    document whose [name] is a string; the hero heading and the footer logo
    then show the name, and the navigation logo shows the name without the
    leftmost [ Kitchen] in it (the name itself when there is none):
    nothing else of the name is taken out. *)
Theorem renderSite_postcondition (site : value) (page0 page1 : gmap string content) :
  truthy site = true -> renderSite site page0 = (page1, Ok tt) ->
  exists name,
    get site "name" = Ok (Json (JStr name)) /\
    page1 !! ".hero h1" = Some (Text name) /\
    page1 !! ".footer-logo" = Some (Text name) /\
    exists logo,
      page1 !! ".nav-logo" = Some (Text logo) /\
      ((logo = name /\ forall a b, name <> a +:+ " Kitchen" +:+ b) \/
       (exists a b,
          name = a +:+ " Kitchen" +:+ b /\ logo = a +:+ b /\
          forall a' b', name = a' +:+ " Kitchen" +:+ b' ->
                        String.length a <= String.length a')).
Proof.
  intros Htruthy. unfold renderSite. rewrite Htruthy. simpl negb. cbv iota.
  destruct (get_truthy site "name" Htruthy) as [x ->].
  destruct (get_truthy site "tagline" Htruthy) as [tagline ->].
  destruct (get_truthy site "subtitle" Htruthy) as [subtitle ->].
  destruct (get_truthy site "copyright" Htruthy) as [copyright ->].
  destruct (strip_kitchen_string x) as [[name ->] | [e He]].
  - walk_back. intros [= <-]. exists name. split; [reflexivity |].
    split; [| split].
    + rewrite !lookup_insert_ne by discriminate. apply lookup_insert_eq.
    + rewrite !lookup_insert_ne by discriminate. apply lookup_insert_eq.
    + exists (replace_first " Kitchen" "" name). split.
      * rewrite !lookup_insert_ne by discriminate. apply lookup_insert_eq.
      * destruct (index 0 " Kitchen" name) as [i |] eqn:Hi.
        -- right.
           destruct (replace_first_found " Kitchen" "" name i)
             as (before & rest & Hs & Hr & Hl); [discriminate | exact Hi |].
           exists before, rest. split; [exact Hs |]. split; [exact Hr | exact Hl].
        -- left. apply replace_first_missing; [discriminate | exact Hi].
  - simpl. rewrite He. walk_back.
Qed.

(** The whole site document of the repository's kind. *)
Lemma renderSite_postcondition_witness :
  let site := JObj [("name", JStr "Uncle & Aunty Kitchen");
                    ("tagline", JStr "Home-style cooking");
                    ("subtitle", JStr "Made with love");
                    ("copyright", JStr "2024 Uncle & Aunty Kitchen")] in
  fst (renderSite site skeleton) !! ".footer-logo" =
    Some (Text "Uncle & Aunty Kitchen") /\
  fst (renderSite site skeleton) !! ".nav-logo" = Some (Text "Uncle & Aunty").
Proof.
  intros site.
  assert (Hend : renderSite site skeleton = (fst (renderSite site skeleton), Ok tt))
    by (vm_compute; reflexivity).
  destruct (renderSite_postcondition site skeleton _ eq_refl Hend)
    as (name & Hname & _ & Hfooter & _).
  injection Hname as <-. split; [exact Hfooter |].
  vm_compute. reflexivity.
Defined.




(* ===================================================================== *)
(** * 21. Each renderer works on the document of its own section          *)
(* ===================================================================== *)



(* ===================================================================== *)
(** * 22. What the cache holds in the end                                 *)
(* ===================================================================== *)

Lemma filename_inj (s s' : section_name) : filename s = filename s' -> s = s'.
Proof. destruct s, s'; simpl; intros H; try reflexivity; discriminate H. Qed.

Lemma step_cached (v : variant) (net : network) (t : turn) (w w' : world) :
  from_network net w -> cached net w -> step v net t w = Some w' -> cached net w'.
Proof.
  intros [Hwait _] Hcached Hstep. destruct t as [s |]; simpl in Hstep.
  - unfold resume in Hstep.
    destruct (tasks w s) as [[| r | data] | c] eqn:Htask; [| | | discriminate].
    + pose proof (Hcached s) as Hs. rewrite Htask in Hs.
      unfold loadData_fetched in Hstep.
      destruct (net (data_url (filename s))) as [e | r] eqn:Hnet;
        [| destruct (ok r) eqn:Hok]; simpl in Hstep; injection Hstep as <-;
        intros s'; simpl;
        match goal with
        | |- context [set_task s ?t (tasks w) s'] =>
            destruct (set_task_cases s s' t (tasks w)) as [[-> ->] | [_ ->]];
              [| apply Hcached]
        end; rewrite Hs; unfold served; rewrite ?Hnet, ?Hok; reflexivity.
    + destruct (Hwait s r Htask) as [Hnet Hok].
      pose proof (Hcached s) as Hs. rewrite Htask in Hs.
      unfold loadData_decoded in Hstep.
      destruct (body r) as [e | m | d] eqn:Hbody; try destruct v;
        injection Hstep as <-; intros s'; simpl;
        match goal with
        | |- context [set_task s ?t (tasks w) s'] =>
            destruct (set_task_cases s s' t (tasks w)) as [[-> ->] | [Hne ->]]
        end;
        try (rewrite Hs; unfold served; rewrite Hnet, Hok, Hbody; reflexivity);
        try apply Hcached.
      all: try (rewrite lookup_insert_eq; unfold served; now rewrite Hnet, Hok, Hbody).
      all: rewrite lookup_insert_ne; [apply Hcached |];
        intros Heq; apply filename_inj in Heq; congruence.
    + pose proof (Hcached s) as Hs. rewrite Htask in Hs.
      destruct (renderer v s data (page w)) as [page' c]. injection Hstep as <-.
      intros s'. simpl.
      destruct (set_task_cases s s' (Settled c) (tasks w)) as [[-> ->] | [_ ->]];
        [exact Hs | apply Hcached].
  - unfold continue in Hstep. destruct (init_done w); [discriminate |].
    destruct (all w); [discriminate | |].
    + destruct (initNavigation _); injection Hstep as <-; exact Hcached.
    + injection Hstep as <-. exact Hcached.
Qed.

(** X18: in both copies, under every order of the turns, once every
    renderer has had its turns the cache holds for each of the five
    sections exactly the document the server has for it (what the body of a
    response with a success status parsed to), nothing for a section whose
    load failed, and nothing under any other name. *)
Theorem cache_at_the_end (v : variant) (net : network)
    (page0 : gmap string content) (chrome0 : gmap string (list string))
    (schedule : list turn) :
  let w := run v net (schedule ++ to_the_end) (init page0 chrome0) in
  (forall s, dataCache w !! filename s = served net (filename s)) /\
  (forall name, (forall s, name <> filename s) -> dataCache w !! name = None).
Proof.
  intros w.
  assert (H : from_network net w /\ cached net w).
  { apply (run_invariant v net (fun w => from_network net w /\ cached net w)).
    - intros t w1 w2 [Hn Hc] Hstep. split.
      + eapply step_from_network; eauto.
      + eapply step_cached; eauto.
    - split; [apply init_from_network |].
      destruct (init_state page0 chrome0) as [Hinit Htasks].
      intros s. rewrite Htasks, Hinit. simpl. apply lookup_empty. }
  destruct H as [[_ Hknown] Hcached].
  destruct (end_state v net page0 chrome0 schedule) as (_ & _ & Hsettled).
  fold w in Hsettled. split.
  - intros s. rewrite Hcached. specialize (Hsettled s).
    destruct (tasks w s) as [pc | c]; [discriminate | reflexivity].
  - intros name Hother. destruct (dataCache w !! name) as [d |] eqn:Hd; [| reflexivity].
    destruct (Hknown name d Hd) as (s & r & -> & _). now destruct (Hother s).
Qed.

(* ===================================================================== *)
(** * 23. What goes into the markup                                       *)
(* ===================================================================== *)

Lemma append_assoc (a b c : string) : (a +:+ b) +:+ c = a +:+ b +:+ c.
Proof.
  induction a as [| x a IH]; [reflexivity |].
  change (String x ((a +:+ b) +:+ c) = String x (a +:+ b +:+ c)). now rewrite IH.
Qed.

Lemma occurs_spec (x s : string) :
  x <> EmptyString -> (occurs x s = true <-> exists a b, s = a +:+ x +:+ b).
Proof.
  intros Hx. unfold occurs. destruct (index 0 x s) as [i |] eqn:Hi; split.
  - intros _. destruct (replace_first_found x "" s i Hx Hi) as (a & b & Hs & _).
    eauto.
  - reflexivity.
  - discriminate.
  - intros (a & b & Hs).
    destruct (proj2 (replace_first_missing x "" s Hx Hi) a b Hs).
Qed.

Lemma occurs_here (x q : string) : x <> EmptyString -> occurs x (x +:+ q) = true.
Proof. intros Hx. apply occurs_spec; [exact Hx |]. exists EmptyString, q. reflexivity. Qed.

Lemma occurs_app_r (x p s : string) :
  x <> EmptyString -> occurs x s = true -> occurs x (p +:+ s) = true.
Proof.
  intros Hx Hs. apply occurs_spec in Hs; [| exact Hx]. destruct Hs as (a & b & ->).
  apply occurs_spec; [exact Hx |]. exists (p +:+ a), b. now rewrite append_assoc.
Qed.

Lemma occurs_app_l (x s q : string) :
  x <> EmptyString -> occurs x s = true -> occurs x (s +:+ q) = true.
Proof.
  intros Hx Hs. apply occurs_spec in Hs; [| exact Hx]. destruct Hs as (a & b & ->).
  apply occurs_spec; [exact Hx |]. exists a, (b +:+ q). now rewrite !append_assoc.
Qed.

Lemma occurs_concat (x m : string) (parts : list string) :
  x <> EmptyString -> In m parts -> occurs x m = true ->
  occurs x (String.concat "" parts) = true.
Proof.
  intros Hx Hin Hm. induction parts as [| y rest IH]; [destruct Hin |].
  destruct rest as [| z rest].
  - destruct Hin as [-> | []]. exact Hm.
  - change (String.concat "" (y :: z :: rest))
      with (y +:+ String.concat "" (z :: rest)).
    destruct Hin as [-> | Hin].
    + now apply occurs_app_l.
    + apply occurs_app_r; [exact Hx | now apply IH].
Qed.

Lemma mapM_In (f : json -> result string) (items : list json) (parts : list string)
    (item : json) :
  mapM f items = Ok parts -> In item items ->
  exists m, f item = Ok m /\ In m parts.
Proof.
  revert parts. induction items as [| y rest IH]; intros parts Hparts Hin;
    [destruct Hin |].
  simpl in Hparts. destruct (f y) as [m |] eqn:Hy; [| discriminate].
  simpl in Hparts. destruct (mapM f rest) as [ms |] eqn:Hrest; [| discriminate].
  injection Hparts as <-. destruct Hin as [-> | Hin].
  - exists m. split; [exact Hy | now left].
  - destruct (IH ms eq_refl Hin) as (m' & Hm' & Hin'). exists m'. split; [exact Hm' |].
    now right.
Qed.

Lemma map_join_occurs (f : json -> result string) (items : list json) (html x : string)
    (item : json) :
  x <> EmptyString -> map_join f items = Ok html -> In item items ->
  (forall m, f item = Ok m -> occurs x m = true) ->
  occurs x html = true.
Proof.
  intros Hx Hhtml Hin Hitem. unfold map_join in Hhtml.
  destruct (mapM f items) as [parts |] eqn:Hparts; [| discriminate].
  injection Hhtml as <-.
  destruct (mapM_In f items parts item Hparts Hin) as (m & Hm & Hinm).
  apply (occurs_concat x m); auto.
Qed.

Ltac verbatim Hx :=
  repeat first
    [ apply (occurs_here _ _ Hx)
    | apply (occurs_app_r _ _ _ Hx) ].

(** In both copies the text of a field goes into a service card as it
    is. *)
Lemma service_card_verbatim (v : variant) (item : json) (k text m : string) :
  In k ["icon"; "name"; "description"] ->
  get item k = Ok (Json (JStr text)) -> text <> EmptyString ->
  match v with
  | Strict => Strict.service_card item
  | Defensive => Defensive.service_card item
  end = Ok m ->
  occurs text m = true.
Proof.
  intros Hk Hget Hx Hcard.
  assert (Hshow : Strict.show item k = Ok text /\
                  forall fallback, Defensive.show item k fallback = Ok text).
  { unfold Strict.show, Defensive.show. rewrite Hget. simpl. split; [reflexivity |].
    intros fallback. unfold or_else. simpl.
    destruct (String.eqb text "") eqn:He; [| reflexivity].
    apply String.eqb_eq in He. contradiction. }
  destruct Hshow as [Hs Hd].
  destruct v; [unfold Strict.service_card in Hcard | unfold Defensive.service_card in Hcard];
    simpl in Hk; destruct Hk as [<- | [<- | [<- | []]]];
    rewrite ?Hs, ?Hd in Hcard; simpl in Hcard;
    repeat match type of Hcard with
           | context [Strict.show ?i ?f] =>
               destruct (Strict.show i f); simpl in Hcard; try discriminate Hcard
           | context [Defensive.show ?i ?f ?d] =>
               destruct (Defensive.show i f d); simpl in Hcard; try discriminate Hcard
           end;
    injection Hcard as <-; unfold service_markup; verbatim Hx.
Qed.

(** X19: neither copy escapes what it puts into the page: when the
    services renderer ends normally, the text of the [icon], [name] and
    [description] of every item is part of the markup written into the
    services grid through [innerHTML], character for character, whatever
    the text is. *)
Theorem services_markup_verbatim (v : variant) (services : value)
    (page0 page1 : gmap string content) (items : list json) (item : json)
    (k text : string) :
  truthy services = true ->
  renderer v Services services page0 = (page1, Ok tt) ->
  get services "items" = Ok (Json (JArr items)) -> In item items ->
  In k ["icon"; "name"; "description"] ->
  get item k = Ok (Json (JStr text)) -> text <> EmptyString ->
  exists markup,
    page1 !! "#services .services-grid" = Some (Html markup) /\
    occurs text markup = true.
Proof.
  intros Htruthy Hend Hitems Hin Hk Hget Hx.
  destruct (get_truthy services "title" Htruthy) as [title Htitle].
  assert (Hhtml : forall html,
            map_join match v with
                     | Strict => Strict.service_card
                     | Defensive => Defensive.service_card
                     end items = Ok html ->
            occurs text html = true).
  { intros html Hhtml.
    eapply map_join_occurs; [exact Hx | exact Hhtml | exact Hin |].
    intros m Hm. apply (service_card_verbatim v item k text m); auto.
    now destruct v. }
  revert Hend. destruct v; simpl renderer.
  - unfold Strict.renderServices.
    rewrite Htruthy, Htitle, (strict_group _ _ _ _ Hitems). simpl negb. cbv iota.
    destruct (map_join Strict.service_card items) as [html |] eqn:Hmap;
      walk_back.
    intros [= <-]. exists html. split; [apply lookup_insert_eq | now apply Hhtml].
  - unfold Defensive.renderServices, Defensive.servicesHtml.
    rewrite Htruthy, Htitle, (defensive_group _ _ _ Hitems). simpl negb. cbv iota.
    change (items0 ← Ok items; map_join Defensive.service_card items0)
      with (map_join Defensive.service_card items).
    destruct (map_join Defensive.service_card items) as [html |] eqn:Hmap;
      walk_back.
    intros [= <-]. exists html. split; [apply lookup_insert_eq | now apply Hhtml].
Qed.

(** A service whose name is markup of its own. *)
Lemma services_markup_verbatim_witness :
  let item := JObj [("icon", JStr "*"); ("name", JStr "<b>Catering</b>");
                    ("description", JStr "For every occasion")] in
  let services := JObj [("title", JStr "Our Services"); ("items", JArr [item])] in
  exists markup,
    fst (renderer Defensive Services services skeleton) !! "#services .services-grid"
      = Some (Html markup) /\
    occurs "<b>Catering</b>" markup = true.
Proof.
  intros item services.
  assert (Hend : renderer Defensive Services services skeleton =
                 (fst (renderer Defensive Services services skeleton), Ok tt))
    by (vm_compute; reflexivity).
  assert (Hin : In item [item]) by (simpl; tauto).
  assert (Hk : In "name" ["icon"; "name"; "description"]) by (simpl; tauto).
  assert (Hx : "<b>Catering</b>" <> EmptyString) by discriminate.
  exact (services_markup_verbatim Defensive services skeleton _ [item] item "name"
           "<b>Catering</b>" eq_refl Hend eq_refl Hin Hk eq_refl Hx).
Defined.
